(** * star_example.py: the demonstration driver of the STAR tokeniser

    A shallow embedding of
    [python/example-src/com/globalphasing/startools/star_example.py]
    (startools 0.2.0) and the properties of its argument parsing, of its
    three consumption loops and of its end-of-run summary.

    The script is straight-line Python 2 with side effects (printing,
    calls into the tokeniser, reads of the clock) and exceptions.  It is
    modelled in a writer/exception monad [Run]: a computation yields the
    trace of effects it performed and either a value or the exception
    that stopped it. *)

From Stdlib Require Import ZArith String Ascii List Lia DecimalString.
From stdpp Require Import base list.
Import ListNotations.

Local Open Scope string_scope.
Local Open Scope list_scope.
Local Open Scope Z_scope.

(** ** Values and effects *)

(** Modelled from the spec: the token class of the tokeniser module
    [com.globalphasing.startools], which the script imports and whose
    source lies outside the example.  Section 3 of the specification
    gives a token a category, a lexeme and a span; the script reads the
    category through the attribute [type], a Python integer that it
    uses as a list index, and prints the token as a whole. *)
Record token := Token {
  type : Z;
  lexeme : string;
  span : Z * Z
}.

(** The exceptions the script can meet.  [TokeniserError] stands for the
    lexical and I/O errors raised inside the tokeniser. *)
Inductive exn :=
| IndexError
| TypeError
| TokeniserError (reason : string).

(** An operand of a [print] statement. *)
Inductive item :=
| PStr (s : string)
| PInt (n : Z)
| PTok (t : token)
| PList (l : list string).

(** What one pull on the tokeniser gives: a token, the exhausted signal
    or an error. *)
Inductive pull :=
| Yield (t : token)
| Stop
| Failed (reason : string).

(** The observable effects, in program order: a [print] statement, the
    construction of the tokeniser, the call of [start_matching], a pull
    with what it gave, a reading of the clock. *)
Inductive event :=
| Printed (items : list item)
| NewTokeniser
| StartMatching (cif : string)
| Next (p : pull)
| Clock.

(** Modelled from the spec: what an iteration over [StarTokeniser],
    imported by the script, delivers for one source.  Section 4.3 of the
    specification makes the token stream a finite, single-pass sequence
    of pulls, each giving a token, the exhausted signal or a terminal
    error: [tokens] are the tokens yielded in order and [failure] tells
    whether the pull after the last of them raises ([Some reason]) or
    signals exhaustion ([None]). *)
Record token_stream := TokenStream {
  tokens : list token;
  failure : option string
}.

(** ** The monad of runs *)

Inductive result (A : Type) :=
| Ok (a : A)
| Raise (e : exn).
Arguments Ok {A} a.
Arguments Raise {A} e.

Definition Run (A : Type) : Type := (list event * result A)%type.

Definition ret {A} (a : A) : Run A := ([], Ok a).

Definition bind {A B} (m : Run A) (k : A -> Run B) : Run B :=
  match m with
  | (tr, Ok a) => let '(tr', r) := k a in (tr ++ tr', r)
  | (tr, Raise e) => (tr, Raise e)
  end.

Definition raise {A} (e : exn) : Run A := ([], Raise e).

Definition emit (ev : event) : Run unit := ([ev], Ok tt).

Definition print (items : list item) : Run unit := emit (Printed items).

Definition trace {A} (m : Run A) : list event := fst m.

Definition outcome {A} (m : Run A) : result A := snd m.

Declare Scope run_scope.
Delimit Scope run_scope with run.
Notation "x <- m ;; k" := (bind m (fun x => k))
  (at level 100, m at next level, right associativity) : run_scope.
Notation "m ;;; k" := (bind m (fun _ => k))
  (at level 100, k at level 200, right associativity) : run_scope.
Local Open Scope run_scope.

(** ** Python primitives *)

Definition nl : string := String (ascii_of_nat 10) EmptyString.

(** [str(n)] for an integer. *)
Definition str (n : Z) : string := NilZero.string_of_int (Z.to_int n).

(** Index normalisation of a Python sequence of length [len]: a negative
    index counts from the end, and anything outside raises. *)
Definition py_index (len : nat) (i : Z) : Run nat :=
  let n := Z.of_nat len in
  let j := if i <? 0 then i + n else i in
  if (0 <=? j) && (j <? n) then ret (Z.to_nat j) else raise IndexError.

(** [l[i]] *)
Definition py_getitem {A} (l : list A) (i : Z) : Run A :=
  k <- py_index (length l) i ;;
  match l !! k with
  | Some x => ret x
  | None => raise IndexError
  end.

(** [l[i] = x] *)
Definition py_setitem {A} (l : list A) (i : Z) (x : A) : Run (list A) :=
  k <- py_index (length l) i ;;
  ret (<[k:=x]> l).

(** [s[i]] for a string: a string of one character. *)
Definition str_getitem (s : string) (i : Z) : Run string :=
  k <- py_index (String.length s) i ;;
  match String.get k s with
  | Some c => ret (String c EmptyString)
  | None => raise IndexError
  end.

(** [range(a, b)] *)
Definition py_range (a b : Z) : list Z :=
  map (fun k => a + Z.of_nat k) (seq 0 (Z.to_nat (b - a))).

(** [for x in xs: body], threading the variables the body assigns. *)
Fixpoint for_each {A S} (xs : list A) (body : A -> S -> Run S) (s : S) : Run S :=
  match xs with
  | [] => ret s
  | x :: xs' => s' <- body x s ;; for_each xs' body s'
  end.

(** [for t in tokeniser: body].  Every iteration begins with a pull;
    the loop ends at the pull that signals exhaustion, and an error
    raised by a pull leaves the loop as an exception. *)
Fixpoint for_tokens_from {S} (toks : list token) (fail : option string)
    (body : token -> S -> Run S) (s : S) : Run S :=
  match toks with
  | [] =>
      match fail with
      | None => emit (Next Stop) ;;; ret s
      | Some reason => emit (Next (Failed reason)) ;;; raise (TokeniserError reason)
      end
  | t :: toks' =>
      emit (Next (Yield t)) ;;;
      s' <- body t s ;;
      for_tokens_from toks' fail body s'
  end.

Definition for_tokens {S} (tokeniser : token_stream)
    (body : token -> S -> Run S) (s : S) : Run S :=
  for_tokens_from (tokens tokeniser) (failure tokeniser) body s.

(** ** The script: loops and arguments *)

(** The variables of the script that the loops assign. *)
Record vars := Vars {
  type_table : option (list Z);
  ntokens : Z
}.

(** [type_table[t.type] += 1] *)
Definition incr_type_table (t : token) (vs : vars) : Run vars :=
  match type_table vs with
  | None => raise TypeError
  | Some tbl =>
      x <- py_getitem tbl (type t) ;;
      tbl' <- py_setitem tbl (type t) (x + 1) ;;
      ret {| type_table := Some tbl'; ntokens := ntokens vs |}
  end.

(** The bodies of the three loops, lines 42, 45 and 48-49. *)
Definition histogram_only (t : token) (vs : vars) : Run vars :=
  incr_type_table t vs.

Definition count_only (t : token) (vs : vars) : Run vars :=
  ret {| type_table := type_table vs; ntokens := ntokens vs + 1 |}.

Definition print_and_histogram (t : token) (vs : vars) : Run vars :=
  print [PTok t] ;;;
  incr_type_table t vs.

(** Lines 40-49: the verbosity is tested before the loops, each branch
    holding a loop of its own. *)
Definition consume (verbosity : string) (tokeniser : token_stream)
    (vs : vars) : Run vars :=
  if String.eqb verbosity "t" then
    for_tokens tokeniser histogram_only vs
  else if String.eqb verbosity "q" then
    for_tokens tokeniser count_only vs
  else
    for_tokens tokeniser print_and_histogram vs.

(** Lines 25-26: the table is allocated unless the run is quiet. *)
Definition initial_vars (verbosity : string) : vars :=
  {| type_table := if String.eqb verbosity "q" then None else Some (repeat 0 18%nat);
     ntokens := 0 |}.

(** Lines 15-20. *)
Definition parse_args (argv : list string) : Run (string * string) :=
  a1 <- py_getitem argv 1 ;;
  c <- str_getitem a1 0 ;;
  if String.eqb c "-" then
    a1' <- py_getitem argv 1 ;;
    verbosity <- str_getitem a1' 1 ;;
    cif <- py_getitem argv 2 ;;
    ret (verbosity, cif)
  else
    cif <- py_getitem argv 1 ;;
    ret ("a", cif).

(** The lines printed at lines 51, 54, 56 and 59. *)
Definition done_line (elapsed : string) : event :=
  Printed [PStr ("Done. Took " ++ elapsed ++ " seconds")%string].

Definition summary_header : event :=
  Printed [PStr (nl ++ "Summary of token types:")%string].

Definition count_line (n : Z) (name : string) : event :=
  Printed [PInt n; PStr name].

Definition total_line (n : Z) : event :=
  Printed [PStr nl; PStr (str n); PStr " tokens in total"].

(** ** The loop the script avoids *)

(** Lines 31-38 of the script describe, in a comment, the loop its
    author decided against: one loop whose body tests the verbosity at
    every token.  [consume_rechecking] is that loop, written from the
    comment and from the specification's design note; it is the
    reference the three separate loops are compared with. *)
Definition rechecking_body (verbosity : string) (t : token) (vs : vars) : Run vars :=
  if String.eqb verbosity "q" then
    ret {| type_table := type_table vs; ntokens := ntokens vs + 1 |}
  else if String.eqb verbosity "t" then
    incr_type_table t vs
  else
    (print [PTok t] ;;; incr_type_table t vs).

Definition consume_rechecking (verbosity : string) (tokeniser : token_stream)
    (vs : vars) : Run vars :=
  for_tokens tokeniser (rechecking_body verbosity) vs.

(** ** Lines 40-49 as program text *)

(** Where the verbosity is tested is a property of the text of the
    program, which the functions above do not show.  The statements of
    lines 40-49 are therefore also kept as syntax: the statements that
    occur in a loop body, and the statements that hold the loops. *)
Inductive action :=
| Incr                                          (* type_table[t.type] += 1 *)
| Count                                         (* ntokens += 1 *)
| PrintToken                                    (* print t *)
| Then (first second : action)                  (* one statement after another *)
| IfVerbosityIn (c : string) (yes no : action). (* if verbosity == c: ... else: ... *)

Inductive block :=
| ForTokens (body : action)                     (* for t in tokeniser: body *)
| IfVerbosity (c : string) (yes no : block).    (* if verbosity == c: ... else: ... *)

(** Lines 40-49, statement for statement ([elif] is an [if] in the
    [else] branch). *)
Definition lines_40_49 : block :=
  IfVerbosity "t" (ForTokens Incr)
    (IfVerbosity "q" (ForTokens Count)
       (ForTokens (Then PrintToken Incr))).

(** The loop of the comment at lines 34-36, statement for statement, with
    the three bodies of the script in its branches. *)
Definition rechecking_loop : block :=
  ForTokens
    (IfVerbosityIn "q" Count
       (IfVerbosityIn "t" Incr (Then PrintToken Incr))).

(** Number of verbosity tests written inside loop bodies. *)
Fixpoint tests_in (a : action) : nat :=
  match a with
  | Incr | Count | PrintToken => 0
  | Then first second => tests_in first + tests_in second
  | IfVerbosityIn _ yes no => S (tests_in yes + tests_in no)
  end.

Fixpoint tests_in_loops (p : block) : nat :=
  match p with
  | ForTokens body => tests_in body
  | IfVerbosity _ yes no => tests_in_loops yes + tests_in_loops no
  end.

(** A step of an execution that also records the evaluations of
    [verbosity == c]. *)
Inductive step :=
| Tested (c : string)
| Effect (ev : event).

Definition Traced (A : Type) : Type := (list step * result A)%type.

Definition traced {A} (m : Run A) : Traced A := (map Effect (trace m), outcome m).

Definition tbind {A B} (m : Traced A) (k : A -> Traced B) : Traced B :=
  match m with
  | (tr, Ok a) => let '(tr', r) := k a in (tr ++ tr', r)
  | (tr, Raise e) => (tr, Raise e)
  end.

(** [verbosity == c] *)
Definition test_verbosity (verbosity c : string) : Traced bool :=
  ([Tested c], Ok (String.eqb verbosity c)).

(** Execution of the program text, with the primitives of the script. *)
Fixpoint exec_action (verbosity : string) (a : action) (t : token) (vs : vars)
    : Traced vars :=
  match a with
  | Incr => traced (incr_type_table t vs)
  | Count => traced (ret {| type_table := type_table vs; ntokens := ntokens vs + 1 |})
  | PrintToken => traced (print [PTok t] ;;; ret vs)
  | Then first second =>
      tbind (exec_action verbosity first t vs)
            (fun vs' => exec_action verbosity second t vs')
  | IfVerbosityIn c yes no =>
      tbind (test_verbosity verbosity c)
            (fun b => if b then exec_action verbosity yes t vs
                      else exec_action verbosity no t vs)
  end.

Fixpoint traced_for_tokens_from {S} (toks : list token) (fail : option string)
    (body : token -> S -> Traced S) (s : S) : Traced S :=
  match toks with
  | [] =>
      match fail with
      | None => traced (emit (Next Stop) ;;; ret s)
      | Some reason =>
          traced (emit (Next (Failed reason)) ;;; raise (TokeniserError reason))
      end
  | t :: toks' =>
      tbind (traced (emit (Next (Yield t))))
            (fun _ => tbind (body t s)
                        (fun s' => traced_for_tokens_from toks' fail body s'))
  end.

Fixpoint exec_block (verbosity : string) (p : block) (tokeniser : token_stream)
    (vs : vars) : Traced vars :=
  match p with
  | ForTokens body =>
      traced_for_tokens_from (tokens tokeniser) (failure tokeniser)
        (exec_action verbosity body) vs
  | IfVerbosity c yes no =>
      tbind (test_verbosity verbosity c)
            (fun b => if b then exec_block verbosity yes tokeniser vs
                      else exec_block verbosity no tokeniser vs)
  end.

(** The effects of a traced execution, the tests left out. *)
Fixpoint effects (tr : list step) : list event :=
  match tr with
  | [] => []
  | Tested _ :: tr' => effects tr'
  | Effect ev :: tr' => ev :: effects tr'
  end.

Definition erase {A} (m : Traced A) : Run A := (effects (fst m), snd m).

(** Number of verbosity tests an execution evaluated. *)
Fixpoint tests_run (tr : list step) : nat :=
  match tr with
  | [] => 0
  | Tested _ :: tr' => S (tests_run tr')
  | Effect _ :: tr' => tests_run tr'
  end.

(** ** Vocabulary of the statements *)

(** A token type that is one of the eighteen entries of the per-category
    table. *)
Definition category (t : token) : Prop := 0 <= type t < 18.

(** A token type that the summary counts: entries 1 to 17. *)
Definition counted (t : token) : Prop := 1 <= type t < 18.

(** Number of tokens of type [i]. *)
Fixpoint count_type (i : Z) (toks : list token) : Z :=
  match toks with
  | [] => 0
  | t :: toks' => (if type t =? i then 1 else 0) + count_type i toks'
  end.

(** The table after one increment per token, at the token's type. *)
Definition bump (tbl : list Z) (t : token) : list Z :=
  alter Z.succ (Z.to_nat (type t)) tbl.

Definition tally (toks : list token) (tbl : list Z) : list Z :=
  fold_left bump toks tbl.

(** The variables after one iteration of a loop that updates the table. *)
Definition table_step (t : token) (vs : vars) : vars :=
  {| type_table := (fun tbl => bump tbl t) <$> type_table vs;
     ntokens := ntokens vs |}.

Definition zsum (l : list Z) : Z := fold_right Z.add 0 l.

(** The effects that make up the end-of-run report. *)
Definition is_report (elapsed : string) (ev : event) : Prop :=
  ev = done_line elapsed \/ ev = summary_header \/
  (exists n name, ev = count_line n name) \/ (exists n, ev = total_line n).

(** The effects of the consumption loops: a pull, or the printing of a
    token. *)
Definition is_loop_event (ev : event) : Prop :=
  (exists p, ev = Next p) \/ exists t, ev = Printed [PTok t].

(** The last pull of a loop over a stream. *)
Definition ending (fail : option string) : pull :=
  match fail with
  | None => Stop
  | Some reason => Failed reason
  end.

(** The pulls of a loop that prints nothing. *)
Definition pulls (toks : list token) (fail : option string) : list event :=
  map (fun t => Next (Yield t)) toks ++ [Next (ending fail)].

(** The effects of the loop that prints each token. *)
Definition printed_pulls (toks : list token) (fail : option string) : list event :=
  flat_map (fun t => [Next (Yield t); Printed [PTok t]]) toks ++ [Next (ending fail)].

(** Number of tokens a run pulled from the token stream. *)
Fixpoint tokens_pulled (tr : list event) : Z :=
  match tr with
  | [] => 0
  | Next (Yield _) :: tr' => 1 + tokens_pulled tr'
  | _ :: tr' => tokens_pulled tr'
  end.

(** The effects of a run from the construction of the tokeniser to the
    first pull. *)
Definition startup (cif : string) : list event :=
  [NewTokeniser; StartMatching cif; Clock; Printed [PStr "Starting...."]].

(** The effects of the loop of a given verbosity over a stream whose
    tokens the table can hold. *)
Definition loop_trace (verbosity : string) (s : token_stream) : list event :=
  if String.eqb verbosity "t" || String.eqb verbosity "q"
  then pulls (tokens s) (failure s)
  else printed_pulls (tokens s) (failure s).

(** The total a completed run of a given verbosity arrives at. *)
Definition total (verbosity : string) (toks : list token) : Z :=
  if String.eqb verbosity "q"
  then Z.of_nat (length toks)
  else Z.of_nat (length toks) - count_type 0 toks.

(** The table a completed run of a given verbosity ends with. *)
Definition final_table (verbosity : string) (toks : list token) : option (list Z) :=
  if String.eqb verbosity "q" then None else Some (tally toks (repeat 0 18%nat)).

(** Entry [i] of a table, [0 <= i]. *)
Definition entry (tbl : list Z) (i : Z) : Z := default 0 (tbl !! Z.to_nat i).

(** ** The script: summary and main *)

Section Driver.

(** What the script takes from outside: [tokeniser.start_matching],
    which opens the source and fixes the token stream the loop will pull
    from (or raises), [star_token_types._token_type_as_string], and
    [str(time.time() - stime)], the rendering of the elapsed wall-clock
    time. *)
Variable start_matching : string -> result token_stream.
Variable _token_type_as_string : Z -> string.
Variable elapsed : string.

(** Lines 53-57. *)
Definition summary_body (tbl : list Z) (i : Z) (n : Z) : Run Z :=
  x <- py_getitem tbl i ;;
  emit (count_line x (_token_type_as_string i)) ;;;
  y <- py_getitem tbl i ;;
  ret (n + y).

Definition summary (vs : vars) : Run vars :=
  match type_table vs with
  | Some tbl =>
      emit summary_header ;;;
      n <- for_each (py_range 1 (Z.of_nat (length tbl))) (summary_body tbl) (ntokens vs) ;;
      ret {| type_table := Some tbl; ntokens := n |}
  | None => ret vs
  end.

(** The lines of the per-category breakdown that [summary] prints for
    a table. *)
Definition count_lines (tbl : list Z) : list event :=
  map (fun i => count_line (entry tbl i) (_token_type_as_string i))
      (py_range 1 (Z.of_nat (length tbl))).

(** The per-category breakdown of a token sequence: one line for each
    of the types 1 to 17, in order. *)
Definition histogram_lines (toks : list token) : list event :=
  map (fun i => count_line (count_type i toks) (_token_type_as_string i))
      (py_range 1 18).

(** What a completed run of a given verbosity prints between the
    timing line and the total. *)
Definition report_lines (verbosity : string) (toks : list token) : list event :=
  if String.eqb verbosity "q" then [] else summary_header :: histogram_lines toks.

(** Lines 22-59, once the arguments are parsed. *)
Definition run_with (verbosity cif : string) : Run vars :=
  emit NewTokeniser ;;;
  emit (StartMatching cif) ;;;
  tokeniser <- ([], start_matching cif) ;;
  let vs0 := initial_vars verbosity in
  emit Clock ;;;
  print [PStr "Starting...."] ;;;
  vs <- consume verbosity tokeniser vs0 ;;
  emit Clock ;;;
  emit (done_line elapsed) ;;;
  vs' <- summary vs ;;
  emit (total_line (ntokens vs')) ;;;
  ret vs'.

(** The whole script, on [sys.argv]. *)
Definition main (argv : list string) : Run vars :=
  print [PList argv] ;;;
  args <- parse_args argv ;;
  let '(verbosity, cif) := args in
  run_with verbosity cif.

End Driver.

(** ** Sample invocations *)

(** Scenario A of the specification, [data_test loop_ _tag1 _tag2 1 2 3 4],
    as a token stream; the type numbers are those of a table of
    eighteen categories. *)
Definition scenario_A : token_stream :=
  {| tokens := [Token 7 "test" (0, 9); Token 8 "loop_" (10, 15);
                Token 10 "_tag1" (16, 21); Token 10 "_tag2" (22, 27);
                Token 16 "1" (28, 29); Token 16 "2" (30, 31);
                Token 16 "3" (32, 33); Token 16 "4" (34, 35)];
     failure := None |}.

(** The fail-fast example of the specification, [_k 'abc]: a tag, then
    an unterminated quoted value. *)
Definition unterminated : token_stream :=
  {| tokens := [Token 10 "_k" (0, 2)];
     failure := Some "unterminated quoted string" |}.

(** A stream with a token of type 0. *)
Definition with_type_0 : token_stream :=
  {| tokens := [Token 0 "x" (0, 1)]; failure := None |}.

(** A file system with three sources. *)
Definition sample_start_matching (cif : string) : result token_stream :=
  if String.eqb cif "a.cif" then Ok scenario_A
  else if String.eqb cif "bad.cif" then Ok unterminated
  else if String.eqb cif "zero.cif" then Ok with_type_0
  else Raise (TokeniserError "cannot open").

Definition sample_names (i : Z) : string := ("type " ++ str i)%string.

Definition sample_main : list string -> Run vars :=
  main sample_start_matching sample_names "0.01".

(** ** Vocabulary of the further properties *)

(** A token type that Python accepts as an index of the eighteen-entry
    table: from -18 to 17. *)
Definition indexable (t : token) : Prop := -18 <= type t < 18.

(** The entry of the table that [type_table[t.type]] denotes: a negative
    type counts from the end. *)
Definition table_slot (t : token) : Z :=
  if type t <? 0 then type t + 18 else type t.

(** The token with its type replaced by the entry it selects. *)
Definition wrapped (t : token) : token :=
  {| type := table_slot t; lexeme := lexeme t; span := span t |}.

(** Number of tokens that select entry [i]. *)
Fixpoint count_slot (i : Z) (toks : list token) : Z :=
  match toks with
  | [] => 0
  | t :: toks' => (if table_slot t =? i then 1 else 0) + count_slot i toks'
  end.

(** What one iteration prints, by verbosity. *)
Definition per_token (verbosity : string) (t : token) : list event :=
  if String.eqb verbosity "t" || String.eqb verbosity "q"
  then [] else [Printed [PTok t]].

(** The body of the loop that a verbosity other than [q] selects. *)
Definition table_body (verbosity : string) : token -> vars -> Run vars :=
  if String.eqb verbosity "t" then histogram_only else print_and_histogram.

(** The tokens a trace shows as pulled, in order. *)
Fixpoint yielded (tr : list event) : list token :=
  match tr with
  | [] => []
  | Next (Yield t) :: tr' => t :: yielded tr'
  | _ :: tr' => yielded tr'
  end.

(** The tokens a trace shows as printed, in order. *)
Fixpoint printed_tokens (tr : list event) : list token :=
  match tr with
  | [] => []
  | Printed [PTok t] :: tr' => t :: printed_tokens tr'
  | _ :: tr' => printed_tokens tr'
  end.

(** The argument lists on which lines 15-20 raise. *)
Definition lacks_path (argv : list string) : Prop :=
  (length argv <= 1)%nat \/
  (exists prog rest, argv = prog :: EmptyString :: rest) \/
  (exists prog rest, argv = prog :: "-" :: rest) \/
  (exists prog c tl, argv = [prog; String "-" (String c tl)]).

(** A stream with a token of a type beyond the table between two tokens
    of the table, and one whose types count from the end. *)
Definition with_type_18 : token_stream :=
  {| tokens := [Token 10 "_a" (0, 2); Token 18 "?" (3, 4); Token 16 "1" (5, 6)];
     failure := None |}.

Definition with_negative_types : token_stream :=
  {| tokens := [Token (-1) "x" (0, 1); Token 17 "y" (2, 3); Token (-18) "z" (4, 5)];
     failure := None |}.

Definition further_start_matching (cif : string) : result token_stream :=
  if String.eqb cif "beyond.cif" then Ok with_type_18
  else if String.eqb cif "negative.cif" then Ok with_negative_types
  else if String.eqb cif "a.cif" then Ok scenario_A
  else Raise (TokeniserError "cannot open").

Definition further_main : list string -> Run vars :=
  main further_start_matching sample_names "0.01".

(** ** Laws of the monad *)

Lemma bind_ret {A B} (a : A) (k : A -> Run B) : bind (ret a) k = k a.
Proof. unfold bind, ret. now destruct (k a). Qed.

Lemma bind_raise {A B} (e : exn) (k : A -> Run B) : bind (raise e) k = raise e.
Proof. reflexivity. Qed.

Lemma bind_emit {B} (ev : event) (k : unit -> Run B) :
  bind (emit ev) k = (ev :: trace (k tt), outcome (k tt)).
Proof. unfold bind, emit, trace, outcome. now destruct (k tt). Qed.

Lemma bind_ok {A B} (tr : list event) (a : A) (k : A -> Run B) :
  bind (tr, Ok a) k = (tr ++ trace (k a), outcome (k a)).
Proof. unfold bind, trace, outcome. now destruct (k a). Qed.

Lemma bind_failed {A B} (tr : list event) (e : exn) (k : A -> Run B) :
  bind (tr, Raise e) k = (tr, Raise e).
Proof. reflexivity. Qed.

Lemma bind_assoc {A B C} (m : Run A) (k : A -> Run B) (h : B -> Run C) :
  bind (bind m k) h = bind m (fun a => bind (k a) h).
Proof.
  destruct m as [tr [a|e]]; [|reflexivity].
  unfold bind. destruct (k a) as [tr' [b|e']]; [|reflexivity].
  destruct (h b) as [tr'' r]. now rewrite app_assoc.
Qed.

Lemma run_eta {A} (m : Run A) : m = (trace m, outcome m).
Proof. now destruct m. Qed.

(** ** Indexing *)

Lemma py_index_in_range (len : nat) (i : Z) :
  0 <= i < Z.of_nat len -> py_index len i = ret (Z.to_nat i).
Proof.
  intros H. unfold py_index.
  destruct (Z.ltb_spec i 0); [lia|].
  destruct (Z.leb_spec 0 i); [|lia].
  destruct (Z.ltb_spec i (Z.of_nat len)); [reflexivity|lia].
Qed.

Lemma py_index_beyond (len : nat) (i : Z) :
  Z.of_nat len <= i -> py_index len i = raise IndexError.
Proof.
  intros H. unfold py_index.
  destruct (Z.ltb_spec i 0); [lia|].
  destruct (Z.ltb_spec i (Z.of_nat len)); [lia|].
  now rewrite andb_false_r.
Qed.

Lemma py_getitem_in_range {A} (l : list A) (i : Z) (x : A) :
  0 <= i -> l !! Z.to_nat i = Some x -> py_getitem l i = ret x.
Proof.
  intros Hi Hx. unfold py_getitem.
  rewrite py_index_in_range.
  - rewrite bind_ret. now rewrite Hx.
  - apply lookup_lt_Some in Hx. lia.
Qed.

Lemma py_getitem_beyond {A} (l : list A) (i : Z) :
  Z.of_nat (length l) <= i -> py_getitem l i = raise IndexError.
Proof. intros H. unfold py_getitem. now rewrite py_index_beyond. Qed.

Lemma py_setitem_in_range {A} (l : list A) (i : Z) (x : A) :
  0 <= i < Z.of_nat (length l) -> py_setitem l i x = ret (<[Z.to_nat i:=x]> l).
Proof.
  intros H. unfold py_setitem. now rewrite py_index_in_range, bind_ret.
Qed.

(** ** Loops whose bodies do not raise *)

Lemma for_each_pure {A S} (pr : A -> list event) (step : A -> S -> S)
    (body : A -> S -> Run S) (xs : list A) (s : S) :
  (forall x s', In x xs -> body x s' = (pr x, Ok (step x s'))) ->
  for_each xs body s =
    (flat_map pr xs, Ok (fold_left (fun s' x => step x s') xs s)).
Proof.
  revert s. induction xs as [|x xs IH]; intros s Hbody; [reflexivity|].
  simpl. rewrite (Hbody x s) by now left.
  rewrite bind_ok, IH by (intros; apply Hbody; now right).
  reflexivity.
Qed.

Lemma for_tokens_from_pure {S} (P : S -> Prop) (pr : token -> list event)
    (step : token -> S -> S) (body : token -> S -> Run S)
    (toks : list token) (fail : option string) (s : S) :
  (forall t s', In t toks -> P s' ->
     body t s' = (pr t, Ok (step t s')) /\ P (step t s')) ->
  P s ->
  for_tokens_from toks fail body s =
    (flat_map (fun t => Next (Yield t) :: pr t) toks ++ [Next (ending fail)],
     match fail with
     | None => Ok (fold_left (fun s' t => step t s') toks s)
     | Some reason => Raise (TokeniserError reason)
     end).
Proof.
  revert s. induction toks as [|t toks IH]; intros s Hbody Hs.
  - cbn [for_tokens_from]. now destruct fail.
  - cbn [for_tokens_from]. rewrite bind_emit.
    destruct (Hbody t s) as [Hb Hs']; [now left|assumption|].
    rewrite Hb, bind_ok.
    rewrite IH; [|intros t' s' Hin; apply Hbody; now right|assumption].
    unfold trace, outcome; simpl. now rewrite <- app_assoc.
Qed.

(** Whatever the bodies do, a loop over a failing stream does not end
    normally, and a loop only performs pulls and the effects of its
    body. *)
Lemma for_tokens_from_failing {S} (body : token -> S -> Run S)
    (toks : list token) (reason : string) (s : S) :
  exists e, outcome (for_tokens_from toks (Some reason) body s) = Raise e.
Proof.
  revert s. induction toks as [|t toks IH]; intros s.
  - simpl. eauto.
  - cbn [for_tokens_from]. rewrite bind_emit. unfold outcome at 1; simpl.
    destruct (body t s) as [tr [s'|e]].
    + rewrite bind_ok. unfold outcome at 1; simpl. apply IH.
    + rewrite bind_failed. simpl. eauto.
Qed.

Lemma for_tokens_from_events {S} (Q : event -> Prop)
    (body : token -> S -> Run S) (toks : list token) (fail : option string) (s : S) :
  (forall p, Q (Next p)) ->
  (forall t s', Forall Q (trace (body t s'))) ->
  Forall Q (trace (for_tokens_from toks fail body s)).
Proof.
  intros HQ Hbody. revert s. induction toks as [|t toks IH]; intros s.
  - cbn [for_tokens_from]. destruct fail; simpl; repeat constructor; apply HQ.
  - cbn [for_tokens_from]. rewrite bind_emit. unfold trace at 1; simpl.
    constructor; [apply HQ|].
    specialize (Hbody t s). destruct (body t s) as [tr [s'|e]].
    + rewrite bind_ok. unfold trace at 1; simpl.
      apply Forall_app. split; [exact Hbody|apply IH].
    + rewrite bind_failed. exact Hbody.
Qed.

(** ** The per-category table *)

Lemma insert_succ_alter (tbl : list Z) (k : nat) (x : Z) :
  tbl !! k = Some x -> <[k:=x + 1]> tbl = alter Z.succ k tbl.
Proof.
  intros Hx. rewrite list_insert_alter.
  apply list_alter_ext; [|reflexivity].
  intros y Hy. rewrite Hx in Hy. injection Hy as <-. reflexivity.
Qed.

(** One execution of [type_table[t.type] += 1] on a table the type
    indexes: no effect but the increment of that entry. *)
Lemma incr_type_table_indexed (t : token) (tbl : list Z) (n : Z) :
  0 <= type t < Z.of_nat (length tbl) ->
  incr_type_table t {| type_table := Some tbl; ntokens := n |} =
    ret {| type_table := Some (bump tbl t); ntokens := n |}.
Proof.
  intros Ht. unfold incr_type_table; simpl.
  destruct (lookup_lt_is_Some_2 tbl (Z.to_nat (type t))) as [x Hx]; [lia|].
  rewrite (py_getitem_in_range tbl (type t) x), bind_ret by (lia || assumption).
  rewrite py_setitem_in_range, bind_ret by assumption.
  unfold bump. now rewrite (insert_succ_alter tbl _ x).
Qed.

(** Beyond the table the statement raises, and nothing is incremented. *)
Lemma incr_type_table_beyond (t : token) (tbl : list Z) (n : Z) :
  Z.of_nat (length tbl) <= type t ->
  incr_type_table t {| type_table := Some tbl; ntokens := n |} = raise IndexError.
Proof.
  intros Ht. unfold incr_type_table; simpl.
  now rewrite py_getitem_beyond.
Qed.

Lemma bump_length (tbl : list Z) (t : token) : length (bump tbl t) = length tbl.
Proof. apply length_alter. Qed.

Lemma tally_length (toks : list token) (tbl : list Z) :
  length (tally toks tbl) = length tbl.
Proof.
  revert tbl. induction toks as [|t toks IH]; intros tbl; [reflexivity|].
  unfold tally in *; simpl. now rewrite IH, bump_length.
Qed.

Lemma bump_lookup (tbl : list Z) (t : token) (i : nat) (x : Z) :
  0 <= type t ->
  tbl !! i = Some x ->
  bump tbl t !! i = Some (x + (if type t =? Z.of_nat i then 1 else 0)).
Proof.
  intros Ht Hx. unfold bump.
  destruct (Z.eqb_spec (type t) (Z.of_nat i)) as [E|E].
  - replace (Z.to_nat (type t)) with i by lia.
    rewrite list_lookup_alter_eq, Hx. reflexivity.
  - rewrite list_lookup_alter_ne by lia. rewrite Hx. f_equal. lia.
Qed.

Lemma tally_lookup (toks : list token) (tbl : list Z) (i : nat) (x : Z) :
  Forall (fun t => 0 <= type t) toks ->
  tbl !! i = Some x ->
  tally toks tbl !! i = Some (x + count_type (Z.of_nat i) toks).
Proof.
  intros Htoks. revert tbl x.
  induction Htoks as [|t toks Ht _ IH]; intros tbl x Hx.
  - simpl. rewrite Hx. f_equal. lia.
  - unfold tally in *. simpl.
    rewrite (IH _ _ (bump_lookup tbl t i x Ht Hx)). f_equal. lia.
Qed.

Lemma repeat_lookup_lt {A} (x : A) (n i : nat) :
  (i < n)%nat -> repeat x n !! i = Some x.
Proof.
  revert i. induction n as [|n IH]; intros i Hi; [lia|].
  destruct i as [|i]; [reflexivity|]. simpl. apply IH. lia.
Qed.

Lemma py_range_0_18 :
  py_range 0 18 = [0; 1; 2; 3; 4; 5; 6; 7; 8; 9; 10; 11; 12; 13; 14; 15; 16; 17].
Proof. reflexivity. Qed.

Lemma py_range_1_18 :
  py_range 1 18 = [1; 2; 3; 4; 5; 6; 7; 8; 9; 10; 11; 12; 13; 14; 15; 16; 17].
Proof. reflexivity. Qed.

(** Each token of a category falls in exactly one of the eighteen
    entries: the entries add up to the number of tokens. *)
Lemma count_type_partition (toks : list token) :
  Forall category toks ->
  zsum (map (fun i => count_type i toks) (py_range 0 18)) = Z.of_nat (length toks).
Proof.
  induction 1 as [|t toks Ht _ IH]; [reflexivity|].
  change (length (t :: toks)) with (S (length toks)).
  rewrite Nat2Z.inj_succ, <- IH. clear IH.
  destruct t as [ty lx sp]. unfold category in Ht. simpl in Ht.
  rewrite py_range_0_18. cbn [zsum map fold_right count_type type].
  assert (ty = 0 \/ ty = 1 \/ ty = 2 \/ ty = 3 \/ ty = 4 \/ ty = 5 \/
          ty = 6 \/ ty = 7 \/ ty = 8 \/ ty = 9 \/ ty = 10 \/ ty = 11 \/
          ty = 12 \/ ty = 13 \/ ty = 14 \/ ty = 15 \/ ty = 16 \/ ty = 17)
    as Hty by lia.
  repeat (destruct Hty as [-> | Hty]; [cbn [Z.eqb Pos.eqb]; lia|]).
  subst ty. cbn [Z.eqb Pos.eqb]. lia.
Qed.

Lemma count_type_nonneg (i : Z) (toks : list token) : 0 <= count_type i toks.
Proof.
  induction toks as [|t toks IH]; simpl; [lia|].
  destruct (type t =? i); lia.
Qed.

Lemma count_type_zero (toks : list token) :
  count_type 0 toks = 0 <-> Forall (fun t => type t <> 0) toks.
Proof.
  induction toks as [|t toks IH]; simpl.
  - split; [constructor|reflexivity].
  - pose proof (count_type_nonneg 0 toks) as Hn.
    destruct (Z.eqb_spec (type t) 0) as [E|E]; split.
    + lia.
    + intros HF. inversion HF; subst. contradiction.
    + intros HC. constructor; [assumption|]. apply IH. lia.
    + intros HF. inversion HF; subst. apply IH in H2. lia.
Qed.

Lemma counted_count_type_zero (toks : list token) :
  Forall counted toks -> count_type 0 toks = 0.
Proof.
  intros H. apply count_type_zero.
  eapply Forall_impl; [exact H|]. unfold counted. intros t Ht. simpl in *. lia.
Qed.

Lemma counted_category (toks : list token) :
  Forall counted toks -> Forall category toks.
Proof.
  intros H. eapply Forall_impl; [exact H|].
  unfold counted, category. intros t Ht. simpl in *. lia.
Qed.

(** ** The three loops in closed form *)

Lemma flat_map_singleton {A B} (g : A -> B) (xs : list A) :
  flat_map (fun x => [g x]) xs = map g xs.
Proof. induction xs as [|x xs IH]; [reflexivity|]. simpl. now rewrite IH. Qed.

Lemma counting_loop (toks : list token) (fail : option string)
    (tbl : option (list Z)) (n : Z) :
  for_tokens_from toks fail count_only {| type_table := tbl; ntokens := n |} =
    (pulls toks fail,
     match fail with
     | None => Ok {| type_table := tbl; ntokens := n + Z.of_nat (length toks) |}
     | Some reason => Raise (TokeniserError reason)
     end).
Proof.
  rewrite (for_tokens_from_pure (fun _ => True) (fun _ => [])
             (fun _ vs => {| type_table := type_table vs; ntokens := ntokens vs + 1 |}));
    [|intros; split; [reflexivity|exact I]|exact I].
  rewrite flat_map_singleton. unfold pulls. f_equal.
  destruct fail; [reflexivity|]. f_equal.
  revert n. induction toks as [|t toks IH]; intros n.
  - simpl. f_equal. lia.
  - cbn [fold_left length type_table ntokens]. rewrite IH. f_equal. lia.
Qed.

Lemma fold_table_step (toks : list token) (tbl : list Z) (n : Z) :
  fold_left (fun vs t => table_step t vs) toks {| type_table := Some tbl; ntokens := n |} =
    {| type_table := Some (tally toks tbl); ntokens := n |}.
Proof.
  revert tbl. induction toks as [|t toks IH]; intros tbl; [reflexivity|].
  simpl. unfold table_step at 2. simpl. apply IH.
Qed.

Lemma table_loop (pr : token -> list event) (body : token -> vars -> Run vars)
    (toks : list token) (fail : option string) (tbl : list Z) (n : Z) :
  (forall t vs, body t vs = ((pr t, Ok tt) ;;; incr_type_table t vs)) ->
  Forall (fun t => 0 <= type t < Z.of_nat (length tbl)) toks ->
  for_tokens_from toks fail body {| type_table := Some tbl; ntokens := n |} =
    (flat_map (fun t => Next (Yield t) :: pr t) toks ++ [Next (ending fail)],
     match fail with
     | None => Ok {| type_table := Some (tally toks tbl); ntokens := n |}
     | Some reason => Raise (TokeniserError reason)
     end).
Proof.
  intros Hbody Htoks.
  rewrite (for_tokens_from_pure
             (fun vs => exists tb, type_table vs = Some tb /\ length tb = length tbl)
             pr table_step).
  - now rewrite fold_table_step.
  - intros t [tb m] Hin (tb' & E & Hlen). simpl in E. subst tb.
    rewrite List.Forall_forall in Htoks. specialize (Htoks t Hin). simpl in Htoks.
    rewrite Hbody, incr_type_table_indexed by (rewrite Hlen; exact Htoks).
    rewrite bind_ok. unfold ret, trace, outcome; simpl. rewrite app_nil_r.
    split; [reflexivity|].
    exists (bump tb' t). split; [reflexivity|]. now rewrite bump_length.
  - exists tbl. now split.
Qed.

Lemma histogram_loop (toks : list token) (fail : option string) (tbl : list Z) (n : Z) :
  Forall (fun t => 0 <= type t < Z.of_nat (length tbl)) toks ->
  for_tokens_from toks fail histogram_only {| type_table := Some tbl; ntokens := n |} =
    (pulls toks fail,
     match fail with
     | None => Ok {| type_table := Some (tally toks tbl); ntokens := n |}
     | Some reason => Raise (TokeniserError reason)
     end).
Proof.
  intros Htoks.
  rewrite (table_loop (fun _ => []) histogram_only);
    [|intros t vs; symmetry; exact (bind_ret tt _)|assumption].
  now rewrite flat_map_singleton.
Qed.

Lemma printing_loop (toks : list token) (fail : option string) (tbl : list Z) (n : Z) :
  Forall (fun t => 0 <= type t < Z.of_nat (length tbl)) toks ->
  for_tokens_from toks fail print_and_histogram {| type_table := Some tbl; ntokens := n |} =
    (printed_pulls toks fail,
     match fail with
     | None => Ok {| type_table := Some (tally toks tbl); ntokens := n |}
     | Some reason => Raise (TokeniserError reason)
     end).
Proof.
  intros Htoks.
  now rewrite (table_loop (fun t => [Printed [PTok t]]) print_and_histogram).
Qed.

(** ** Argument parsing in closed form *)

Lemma get_lt_length (s : string) (k : nat) (c : ascii) :
  String.get k s = Some c -> (k < String.length s)%nat.
Proof.
  revert k. induction s as [|a s IH]; intros k H; [discriminate|].
  destruct k as [|k]; simpl in *; [lia|]. apply IH in H. lia.
Qed.

Lemma str_getitem_in_range (s : string) (i : Z) (c : ascii) :
  0 <= i -> String.get (Z.to_nat i) s = Some c ->
  str_getitem s i = ret (String c EmptyString).
Proof.
  intros Hi Hc. unfold str_getitem.
  rewrite py_index_in_range by (apply get_lt_length in Hc; lia).
  now rewrite bind_ret, Hc.
Qed.

Lemma str_getitem_beyond (s : string) (i : Z) :
  Z.of_nat (String.length s) <= i -> str_getitem s i = raise IndexError.
Proof. intros H. unfold str_getitem. now rewrite py_index_beyond. Qed.

Lemma eqb_one_char (c d : ascii) :
  String.eqb (String c EmptyString) (String d EmptyString) = Ascii.eqb c d.
Proof. simpl. now destruct (Ascii.eqb c d). Qed.

(** A first argument [-c...] followed by a second argument. *)
Lemma parse_args_dash (prog : string) (c : ascii) (tl path : string)
    (more : list string) :
  parse_args (prog :: String "-" (String c tl) :: path :: more) =
    ret (String c EmptyString, path).
Proof.
  unfold parse_args.
  rewrite (py_getitem_in_range _ 1 (String "-" (String c tl))), bind_ret
    by (reflexivity || lia).
  rewrite (str_getitem_in_range _ 0 "-"), bind_ret by (reflexivity || lia).
  change (String.eqb "-" "-") with true. cbv iota. rewrite bind_ret.
  rewrite (str_getitem_in_range _ 1 c), bind_ret by (reflexivity || lia).
  rewrite (py_getitem_in_range _ 2 path), bind_ret by (reflexivity || lia).
  reflexivity.
Qed.

(** A first argument that begins with another character. *)
Lemma parse_args_plain (prog : string) (ch : ascii) (tl : string)
    (more : list string) :
  ch <> "-"%char ->
  parse_args (prog :: String ch tl :: more) = ret ("a", String ch tl).
Proof.
  intros Hch. unfold parse_args.
  rewrite (py_getitem_in_range _ 1 (String ch tl)), bind_ret
    by (reflexivity || lia).
  rewrite (str_getitem_in_range _ 0 ch), bind_ret by (reflexivity || lia).
  rewrite eqb_one_char.
  destruct (Ascii.eqb_spec ch "-") as [E|_]; [contradiction|].
  now rewrite bind_ret.
Qed.

(** No first argument. *)
Lemma parse_args_short (argv : list string) :
  (length argv <= 1)%nat -> parse_args argv = raise IndexError.
Proof.
  intros H. unfold parse_args. now rewrite py_getitem_beyond by lia.
Qed.

(** A first argument that begins with [-], and no second argument. *)
Lemma parse_args_dash_alone (prog tl : string) :
  parse_args [prog; String "-" tl] = raise IndexError.
Proof.
  unfold parse_args.
  rewrite (py_getitem_in_range _ 1 (String "-" tl)), bind_ret
    by (reflexivity || lia).
  rewrite (str_getitem_in_range _ 0 "-"), bind_ret by (reflexivity || lia).
  change (String.eqb "-" "-") with true. cbv iota. rewrite bind_ret.
  destruct tl as [|c tl].
  - now rewrite str_getitem_beyond by (simpl; lia).
  - rewrite (str_getitem_in_range _ 1 c), bind_ret by (reflexivity || lia).
    now rewrite py_getitem_beyond by (simpl; lia).
Qed.

(** ** The script in closed form *)

Section DriverFacts.

Variable start_matching : string -> result token_stream.
Variable _token_type_as_string : Z -> string.
Variable elapsed : string.

Local Abbreviation summary := (summary _token_type_as_string).
Local Abbreviation count_lines := (count_lines _token_type_as_string).
Local Abbreviation histogram_lines := (histogram_lines _token_type_as_string).
Local Abbreviation report_lines := (report_lines _token_type_as_string).
Local Abbreviation run_with := (run_with start_matching _token_type_as_string elapsed).
Local Abbreviation main := (main start_matching _token_type_as_string elapsed).

Lemma fold_left_add (f : Z -> Z) (xs : list Z) (n : Z) :
  fold_left (fun m i => m + f i) xs n = n + zsum (map f xs).
Proof.
  revert n. induction xs as [|x xs IH]; intros n; simpl; [lia|].
  rewrite IH. lia.
Qed.

Lemma in_py_range (a b i : Z) : In i (py_range a b) -> a <= i < b.
Proof.
  unfold py_range. rewrite in_map_iff. intros (k & <- & Hk).
  apply in_seq in Hk. lia.
Qed.

Lemma summary_table (tbl : list Z) (n : Z) :
  summary {| type_table := Some tbl; ntokens := n |} =
    (summary_header :: count_lines tbl,
     Ok {| type_table := Some tbl;
           ntokens := n + zsum (map (entry tbl) (py_range 1 (Z.of_nat (length tbl)))) |}).
Proof.
  unfold summary; cbn [type_table ntokens].
  rewrite bind_emit.
  rewrite (for_each_pure
             (fun i => [count_line (entry tbl i) (_token_type_as_string i)])
             (fun i m => m + entry tbl i)).
  - rewrite bind_ok. unfold trace, outcome, ret; simpl.
    rewrite app_nil_r, flat_map_singleton, fold_left_add. reflexivity.
  - intros i m Hi. apply in_py_range in Hi.
    destruct (lookup_lt_is_Some_2 tbl (Z.to_nat i)) as [x Hx]; [lia|].
    unfold summary_body, entry.
    rewrite (py_getitem_in_range tbl i x), bind_ret by (lia || assumption).
    rewrite bind_emit, bind_ret, Hx. reflexivity.
Qed.

Lemma summary_quiet (n : Z) :
  summary {| type_table := None; ntokens := n |} =
    ret {| type_table := None; ntokens := n |}.
Proof. reflexivity. Qed.

Lemma main_parsed (argv : list string) (verbosity cif : string) :
  parse_args argv = ret (verbosity, cif) ->
  main argv =
    (Printed [PList argv] :: trace (run_with verbosity cif),
     outcome (run_with verbosity cif)).
Proof.
  intros H. unfold main, print.
  rewrite bind_emit, H, bind_ret. reflexivity.
Qed.

Lemma main_unparsed (argv : list string) (e : exn) :
  parse_args argv = raise e ->
  main argv = ([Printed [PList argv]], Raise e).
Proof.
  intros H. unfold main, print.
  rewrite bind_emit, H, bind_raise. reflexivity.
Qed.

(** A run whose loop raises stops there. *)
Lemma run_with_raised (verbosity cif : string) (s : token_stream)
    (tr : list event) (e : exn) :
  start_matching cif = Ok s ->
  consume verbosity s (initial_vars verbosity) = (tr, Raise e) ->
  run_with verbosity cif =
    ([NewTokeniser; StartMatching cif; Clock; Printed [PStr "Starting...."]] ++ tr,
     Raise e).
Proof.
  intros Hs Hc. unfold run_with, print.
  rewrite !bind_emit, Hs, bind_ok. cbv zeta.
  rewrite !bind_emit, Hc, bind_failed. reflexivity.
Qed.

(** A run whose loop ends goes on to the timing line, the summary and
    the total. *)
Lemma run_with_ended (verbosity cif : string) (s : token_stream)
    (tr trs : list event) (vs vs' : vars) :
  start_matching cif = Ok s ->
  consume verbosity s (initial_vars verbosity) = (tr, Ok vs) ->
  summary vs = (trs, Ok vs') ->
  run_with verbosity cif =
    ([NewTokeniser; StartMatching cif; Clock; Printed [PStr "Starting...."]] ++ tr ++
     [Clock; done_line elapsed] ++ trs ++ [total_line (ntokens vs')],
     Ok vs').
Proof.
  intros Hs Hc Hsum. unfold run_with, print.
  rewrite !bind_emit, Hs, bind_ok. cbv zeta.
  rewrite !bind_emit, Hc, bind_ok.
  rewrite !bind_emit, Hsum, bind_ok, bind_emit.
  reflexivity.
Qed.

(** *** The table at the end of a loop *)

Lemma tally_entry (toks : list token) (i : Z) :
  Forall category toks -> 0 <= i < 18 ->
  entry (tally toks (repeat 0 18%nat)) i = count_type i toks.
Proof.
  intros Htoks Hi. unfold entry.
  rewrite (tally_lookup toks _ (Z.to_nat i) 0).
  - simpl. now rewrite Z2Nat.id by lia.
  - eapply Forall_impl; [exact Htoks|]. unfold category. intros t Ht. simpl in *. lia.
  - apply repeat_lookup_lt. lia.
Qed.

Lemma tally_entries (toks : list token) (a : Z) :
  Forall category toks -> 0 <= a ->
  map (entry (tally toks (repeat 0 18%nat))) (py_range a 18) =
  map (fun i => count_type i toks) (py_range a 18).
Proof.
  intros Htoks Ha. apply map_ext_in. intros i Hi.
  apply in_py_range in Hi. apply tally_entry; [assumption|lia].
Qed.

Lemma count_lines_tally (toks : list token) :
  Forall category toks ->
  count_lines (tally toks (repeat 0 18%nat)) = histogram_lines toks.
Proof.
  intros Htoks. unfold count_lines, histogram_lines.
  rewrite tally_length, repeat_length. change (Z.of_nat 18) with 18.
  apply map_ext_in. intros i Hi. apply in_py_range in Hi.
  now rewrite tally_entry by (assumption || lia).
Qed.

Lemma counted_total (toks : list token) :
  Forall category toks ->
  zsum (map (entry (tally toks (repeat 0 18%nat))) (py_range 1 18)) =
    Z.of_nat (length toks) - count_type 0 toks.
Proof.
  intros Htoks.
  rewrite (tally_entries toks) by (assumption || lia).
  rewrite <- (count_type_partition toks Htoks).
  rewrite py_range_0_18, py_range_1_18. cbn [map zsum fold_right]. lia.
Qed.

(** *** The loop of a run, in every mode *)

Lemma initial_vars_quiet :
  initial_vars "q" = {| type_table := None; ntokens := 0 |}.
Proof. reflexivity. Qed.

Lemma initial_vars_table (verbosity : string) :
  verbosity <> "q" ->
  initial_vars verbosity = {| type_table := Some (repeat 0 18%nat); ntokens := 0 |}.
Proof.
  intros H. unfold initial_vars.
  now destruct (String.eqb_spec verbosity "q").
Qed.

Lemma consume_closed (verbosity : string) (s : token_stream) :
  verbosity = "q" \/ Forall category (tokens s) ->
  consume verbosity s (initial_vars verbosity) =
    (loop_trace verbosity s,
     match failure s with
     | None => Ok {| type_table := final_table verbosity (tokens s);
                     ntokens := if String.eqb verbosity "q"
                                then Z.of_nat (length (tokens s)) else 0 |}
     | Some reason => Raise (TokeniserError reason)
     end).
Proof.
  intros H. unfold consume, loop_trace, final_table, for_tokens.
  destruct (String.eqb_spec verbosity "q") as [->|Hq].
  - cbn [String.eqb Ascii.eqb Bool.eqb orb]. rewrite initial_vars_quiet.
    now rewrite counting_loop.
  - destruct H as [H|H]; [contradiction|].
    assert (Forall (fun t => 0 <= type t < Z.of_nat (length (repeat 0 18%nat))) (tokens s))
      as H' by (rewrite repeat_length; exact H).
    rewrite initial_vars_table by assumption.
    destruct (String.eqb verbosity "t"); cbn [orb].
    + now rewrite histogram_loop.
    + now rewrite printing_loop.
Qed.

(** *** Completed and failed runs *)

Lemma run_with_completed (verbosity cif : string) (s : token_stream) :
  start_matching cif = Ok s ->
  failure s = None ->
  verbosity = "q" \/ Forall category (tokens s) ->
  run_with verbosity cif =
    (startup cif ++ loop_trace verbosity s ++ [Clock; done_line elapsed] ++
     report_lines verbosity (tokens s) ++ [total_line (total verbosity (tokens s))],
     Ok {| type_table := final_table verbosity (tokens s);
           ntokens := total verbosity (tokens s) |}).
Proof.
  intros Hs Hf H.
  pose proof (consume_closed verbosity s H) as Hc. rewrite Hf in Hc.
  unfold final_table, total, report_lines in *.
  destruct (String.eqb_spec verbosity "q") as [->|Hq].
  - now rewrite (run_with_ended "q" cif s _ [] _ _ Hs Hc (summary_quiet _)).
  - destruct H as [H|H]; [contradiction|].
    rewrite (run_with_ended verbosity cif s _ _ _ _ Hs Hc (summary_table _ _)).
    cbn [ntokens]. rewrite tally_length, repeat_length. change (Z.of_nat 18) with 18.
    now rewrite count_lines_tally, counted_total by assumption.
Qed.

Lemma run_with_failed (verbosity cif : string) (s : token_stream) (reason : string) :
  start_matching cif = Ok s ->
  failure s = Some reason ->
  verbosity = "q" \/ Forall category (tokens s) ->
  run_with verbosity cif =
    (startup cif ++ loop_trace verbosity s, Raise (TokeniserError reason)).
Proof.
  intros Hs Hf H.
  pose proof (consume_closed verbosity s H) as Hc. rewrite Hf in Hc.
  exact (run_with_raised verbosity cif s _ _ Hs Hc).
Qed.

End DriverFacts.

(** ** Properties of the driver *)

Lemma for_tokens_from_ext {S} (body body' : token -> S -> Run S)
    (toks : list token) (fail : option string) (s : S) :
  (forall t s', body t s' = body' t s') ->
  for_tokens_from toks fail body s = for_tokens_from toks fail body' s.
Proof.
  intros Hext. revert s. induction toks as [|t toks IH]; intros s; [reflexivity|].
  cbn [for_tokens_from]. rewrite Hext. f_equal.
  destruct (body' t s) as [tr [s'|e]]; [|reflexivity].
  rewrite !bind_ok. now rewrite IH.
Qed.

(** Testing the verbosity before the loops or at each token makes no
    difference to the run. *)
Lemma consume_eq_consume_rechecking (verbosity : string) (tokeniser : token_stream)
    (vs : vars) :
  consume verbosity tokeniser vs = consume_rechecking verbosity tokeniser vs.
Proof.
  unfold consume, consume_rechecking, for_tokens.
  apply eq_sym.
  destruct (String.eqb_spec verbosity "q") as [->|Hq].
  - change (String.eqb "q" "t") with false. cbv iota.
    apply for_tokens_from_ext. intros t s'. reflexivity.
  - destruct (String.eqb verbosity "t") eqn:Et;
      apply for_tokens_from_ext; intros t s'; unfold rechecking_body;
      (destruct (String.eqb_spec verbosity "q"); [contradiction|]);
      rewrite Et; reflexivity.
Qed.

(** *** Execution of the program text *)

Lemma effects_app (tr tr' : list step) :
  effects (tr ++ tr') = effects tr ++ effects tr'.
Proof.
  induction tr as [|[c|ev] tr IH]; simpl; now rewrite ?IH.
Qed.

Lemma tests_run_app (tr tr' : list step) :
  tests_run (tr ++ tr') = (tests_run tr + tests_run tr')%nat.
Proof.
  induction tr as [|[c|ev] tr IH]; simpl; now rewrite ?IH.
Qed.

Lemma effects_map_Effect (l : list event) : effects (map Effect l) = l.
Proof. induction l as [|ev l IH]; simpl; now rewrite ?IH. Qed.

Lemma tests_run_map_Effect (l : list event) : tests_run (map Effect l) = 0%nat.
Proof. induction l as [|ev l IH]; simpl; now rewrite ?IH. Qed.

Lemma effects_map_Tested (l : list string) : effects (map Tested l) = [].
Proof. induction l as [|c l IH]; simpl; now rewrite ?IH. Qed.

Lemma erase_traced {A} (m : Run A) : erase (traced m) = m.
Proof.
  destruct m as [tr r]. unfold erase, traced, trace, outcome; simpl.
  now rewrite effects_map_Effect.
Qed.

Lemma erase_tbind {A B} (m : Traced A) (k : A -> Traced B) :
  erase (tbind m k) = bind (erase m) (fun a => erase (k a)).
Proof.
  destruct m as [tr [a|e]]; unfold erase, tbind, bind; simpl; [|reflexivity].
  destruct (k a) as [tr' r]. simpl. now rewrite effects_app.
Qed.

Lemma erase_test_verbosity (verbosity c : string) :
  erase (test_verbosity verbosity c) = ret (String.eqb verbosity c).
Proof. reflexivity. Qed.

Lemma fst_tbind {A B} (m : Traced A) (k : A -> Traced B) :
  fst (tbind m k) =
    fst m ++ match snd m with Ok a => fst (k a) | Raise _ => [] end.
Proof.
  destruct m as [tr [a|e]]; unfold tbind; simpl.
  - now destruct (k a).
  - now rewrite app_nil_r.
Qed.

Lemma bind_ext {A B} (m : Run A) (k k' : A -> Run B) :
  (forall a, k a = k' a) -> bind m k = bind m k'.
Proof.
  intros H. destruct m as [tr [a|e]]; [|reflexivity].
  unfold bind. now rewrite H.
Qed.

Lemma tbind_ext {A B} (m : Traced A) (k k' : A -> Traced B) :
  (forall a, k a = k' a) -> tbind m k = tbind m k'.
Proof.
  intros H. destruct m as [tr [a|e]]; [|reflexivity].
  unfold tbind. now rewrite H.
Qed.

Lemma traced_bind {A B} (m : Run A) (k : A -> Run B) :
  tbind (traced m) (fun a => traced (k a)) = traced (bind m k).
Proof.
  destruct m as [tr [a|e]]; unfold traced, tbind, bind, trace, outcome; simpl;
    [|reflexivity].
  destruct (k a) as [tr' r]. simpl. now rewrite map_app.
Qed.

Lemma erase_for {S} (body : token -> S -> Traced S) (toks : list token)
    (fail : option string) (s : S) :
  erase (traced_for_tokens_from toks fail body s) =
    for_tokens_from toks fail (fun t s' => erase (body t s')) s.
Proof.
  revert s. induction toks as [|t toks IH]; intros s.
  - cbn [traced_for_tokens_from for_tokens_from]. destruct fail; apply erase_traced.
  - cbn [traced_for_tokens_from for_tokens_from].
    rewrite erase_tbind, erase_traced. apply bind_ext. intros _.
    rewrite erase_tbind. apply bind_ext. intros s'. apply IH.
Qed.

Lemma traced_for {S} (body : token -> S -> Traced S) (b : token -> S -> Run S)
    (toks : list token) (fail : option string) (s : S) :
  (forall t s', body t s' = traced (b t s')) ->
  traced_for_tokens_from toks fail body s = traced (for_tokens_from toks fail b s).
Proof.
  intros Hb. revert s. induction toks as [|t toks IH]; intros s.
  - cbn [traced_for_tokens_from for_tokens_from]. now destruct fail.
  - cbn [traced_for_tokens_from for_tokens_from].
    rewrite <- traced_bind. apply tbind_ext. intros _.
    rewrite Hb, <- traced_bind. apply tbind_ext. intros s'. apply IH.
Qed.

Lemma print_then_incr (t : token) (vs : vars) :
  bind (print [PTok t] ;;; ret vs) (fun vs' => incr_type_table t vs') =
  print_and_histogram t vs.
Proof.
  unfold print_and_histogram. rewrite bind_assoc. apply bind_ext.
  intros _. apply bind_ret.
Qed.

(** The three bodies of the script, as text, execute without a test to
    the three functions of the embedding. *)
Lemma exec_script_bodies (verbosity : string) (t : token) (vs : vars) :
  exec_action verbosity Incr t vs = traced (histogram_only t vs) /\
  exec_action verbosity Count t vs = traced (count_only t vs) /\
  exec_action verbosity (Then PrintToken Incr) t vs =
    traced (print_and_histogram t vs).
Proof.
  split; [reflexivity|]. split; [reflexivity|].
  cbn [exec_action]. now rewrite traced_bind, print_then_incr.
Qed.

Lemma lines_40_49_trace (verbosity : string) (tokeniser : token_stream) (vs : vars) :
  fst (exec_block verbosity lines_40_49 tokeniser vs) =
    map Tested (if String.eqb verbosity "t" then ["t"] else ["t"; "q"]) ++
    map Effect (trace (consume verbosity tokeniser vs)).
Proof.
  unfold lines_40_49, consume, for_tokens. cbn [exec_block].
  rewrite fst_tbind. unfold test_verbosity at 1 2. cbn [fst snd].
  destruct (String.eqb verbosity "t").
  - rewrite (traced_for _ histogram_only)
      by (intros; apply exec_script_bodies). reflexivity.
  - rewrite fst_tbind. unfold test_verbosity. cbn [fst snd].
    destruct (String.eqb verbosity "q").
    + rewrite (traced_for _ count_only)
        by (intros; apply exec_script_bodies). reflexivity.
    + rewrite (traced_for _ print_and_histogram)
        by (intros; apply exec_script_bodies). reflexivity.
Qed.

Lemma lines_40_49_denote (verbosity : string) (tokeniser : token_stream) (vs : vars) :
  erase (exec_block verbosity lines_40_49 tokeniser vs) =
    consume verbosity tokeniser vs.
Proof.
  unfold erase. rewrite lines_40_49_trace, effects_app, effects_map_Tested.
  rewrite effects_map_Effect. cbn [app].
  rewrite (run_eta (consume verbosity tokeniser vs)) at 2.
  unfold trace. f_equal.
  unfold lines_40_49, consume, for_tokens. cbn [exec_block].
  unfold tbind, test_verbosity.
  destruct (String.eqb verbosity "t").
  - rewrite (traced_for _ histogram_only) by (intros; apply exec_script_bodies).
    now destruct (for_tokens_from _ _ _ _).
  - destruct (String.eqb verbosity "q").
    + rewrite (traced_for _ count_only) by (intros; apply exec_script_bodies).
      now destruct (for_tokens_from _ _ _ _).
    + rewrite (traced_for _ print_and_histogram)
        by (intros; apply exec_script_bodies).
      now destruct (for_tokens_from _ _ _ _).
Qed.

Lemma rechecking_body_denotes (verbosity : string) (t : token) (vs : vars) :
  erase (exec_action verbosity
           (IfVerbosityIn "q" Count
              (IfVerbosityIn "t" Incr (Then PrintToken Incr))) t vs) =
    rechecking_body verbosity t vs.
Proof.
  cbn [exec_action]. rewrite erase_tbind, erase_test_verbosity, bind_ret.
  unfold rechecking_body. destruct (String.eqb verbosity "q");
    [apply erase_traced|].
  rewrite erase_tbind, erase_test_verbosity, bind_ret.
  destruct (String.eqb verbosity "t"); [apply erase_traced|].
  rewrite traced_bind, erase_traced. apply print_then_incr.
Qed.

Lemma rechecking_loop_denotes (verbosity : string) (tokeniser : token_stream)
    (vs : vars) :
  erase (exec_block verbosity rechecking_loop tokeniser vs) =
    consume_rechecking verbosity tokeniser vs.
Proof.
  unfold rechecking_loop, consume_rechecking, for_tokens. cbn [exec_block].
  rewrite erase_for. apply for_tokens_from_ext. intros t s'.
  apply rechecking_body_denotes.
Qed.


Lemma consume_default (verbosity : string) (s : token_stream) (vs : vars) :
  verbosity <> "q" -> verbosity <> "t" ->
  consume verbosity s vs = for_tokens s print_and_histogram vs.
Proof.
  intros Hq Ht. unfold consume.
  destruct (String.eqb_spec verbosity "t"); [contradiction|].
  now destruct (String.eqb_spec verbosity "q").
Qed.

Lemma run_with_default (start_matching : string -> result token_stream)
    (names : Z -> string) (elapsed verbosity cif : string) :
  verbosity <> "q" -> verbosity <> "t" ->
  run_with start_matching names elapsed verbosity cif =
  run_with start_matching names elapsed "a" cif.
Proof.
  intros Hq Ht. unfold run_with, print.
  rewrite (initial_vars_table verbosity), (initial_vars_table "a")
    by (assumption || discriminate).
  rewrite !bind_emit. destruct (start_matching cif) as [s|e]; [|reflexivity].
  rewrite !bind_ok. cbv zeta. rewrite !bind_emit.
  rewrite (consume_default verbosity), (consume_default "a")
    by (assumption || discriminate).
  reflexivity.
Qed.

(** *** Counting the pulls of a trace *)

Lemma tokens_pulled_app (tr tr' : list event) :
  tokens_pulled (tr ++ tr') = tokens_pulled tr + tokens_pulled tr'.
Proof.
  induction tr as [|ev tr IH]; [reflexivity|].
  destruct ev as [items| |cif|[t| |reason]|]; simpl; lia.
Qed.

Lemma tokens_pulled_pulls (toks : list token) (fail : option string) :
  tokens_pulled (pulls toks fail) = Z.of_nat (length toks).
Proof.
  unfold pulls. induction toks as [|t toks IH].
  - now destruct fail.
  - cbn [map app tokens_pulled length]. rewrite IH. lia.
Qed.

Lemma tokens_pulled_printed_pulls (toks : list token) (fail : option string) :
  tokens_pulled (printed_pulls toks fail) = Z.of_nat (length toks).
Proof.
  unfold printed_pulls. induction toks as [|t toks IH].
  - now destruct fail.
  - cbn [flat_map app tokens_pulled length]. rewrite IH. lia.
Qed.

Lemma tokens_pulled_loop_trace (verbosity : string) (s : token_stream) :
  tokens_pulled (loop_trace verbosity s) = Z.of_nat (length (tokens s)).
Proof.
  unfold loop_trace. destruct (_ || _).
  - apply tokens_pulled_pulls.
  - apply tokens_pulled_printed_pulls.
Qed.

Lemma tokens_pulled_report_lines (names : Z -> string) (verbosity : string)
    (toks : list token) :
  tokens_pulled (report_lines names verbosity toks) = 0.
Proof.
  unfold report_lines, histogram_lines. destruct (String.eqb verbosity "q"); [reflexivity|].
  cbn [tokens_pulled summary_header]. induction (py_range 1 18); [reflexivity|assumption].
Qed.

(** *** What the loops can emit *)

Lemma trace_bind {A B} (m : Run A) (k : A -> Run B) :
  trace (bind m k) =
    trace m ++ match outcome m with Ok a => trace (k a) | Raise _ => [] end.
Proof.
  destruct m as [tr [a|e]]; unfold bind, trace; simpl.
  - now destruct (k a).
  - now rewrite app_nil_r.
Qed.

Lemma py_index_silent (len : nat) (i : Z) : trace (py_index len i) = [].
Proof. unfold py_index. now destruct (_ && _). Qed.

Lemma py_getitem_silent {A} (l : list A) (i : Z) : trace (py_getitem l i) = [].
Proof.
  unfold py_getitem. rewrite trace_bind, py_index_silent.
  destruct (outcome _); [|reflexivity]. now destruct (l !! a).
Qed.

Lemma py_setitem_silent {A} (l : list A) (i : Z) (x : A) :
  trace (py_setitem l i x) = [].
Proof.
  unfold py_setitem. rewrite trace_bind, py_index_silent.
  now destruct (outcome _).
Qed.

Lemma incr_type_table_silent (t : token) (vs : vars) :
  trace (incr_type_table t vs) = [].
Proof.
  unfold incr_type_table. destruct (type_table vs) as [tbl|]; [|reflexivity].
  rewrite trace_bind, py_getitem_silent.
  destruct (outcome _); [|reflexivity].
  rewrite trace_bind, py_setitem_silent. now destruct (outcome _).
Qed.

Lemma consume_events (verbosity : string) (s : token_stream) (vs : vars) :
  Forall is_loop_event (trace (consume verbosity s vs)).
Proof.
  assert (forall p, is_loop_event (Next p)) as HN by (intros p; left; eauto).
  unfold consume, for_tokens.
  destruct (String.eqb verbosity "t"); [|destruct (String.eqb verbosity "q")];
    apply for_tokens_from_events; try exact HN; intros t s'.
  - unfold histogram_only. rewrite incr_type_table_silent. constructor.
  - constructor.
  - unfold print_and_histogram, print. rewrite bind_emit.
    unfold trace at 1; cbn [fst]. rewrite incr_type_table_silent.
    constructor; [right; eauto|constructor].
Qed.

Lemma consume_failing (verbosity : string) (s : token_stream) (vs : vars)
    (reason : string) :
  failure s = Some reason ->
  exists e, outcome (consume verbosity s vs) = Raise e.
Proof.
  intros Hf. unfold consume, for_tokens. rewrite Hf.
  destruct (String.eqb verbosity "t"); [|destruct (String.eqb verbosity "q")];
    apply for_tokens_from_failing.
Qed.

Lemma loop_event_not_report (elapsed : string) (ev : event) :
  is_loop_event ev -> ~ is_report elapsed ev.
Proof.
  intros [[p ->] | [t ->]] [H | [H | [(n & name & H) | (n & H)]]]; discriminate.
Qed.

Lemma startup_not_report (elapsed : string) (argv : list string) (cif : string) :
  Forall (fun ev => ~ is_report elapsed ev) (Printed [PList argv] :: startup cif).
Proof.
  repeat constructor;
    intros [H | [H | [(n & name & H) | (n & H)]]]; discriminate.
Qed.

Lemma tokens_pulled_completed (names : Z -> string) (elapsed : string)
    (argv : list string) (verbosity cif : string) (s : token_stream) (n : Z) :
  tokens_pulled
    (Printed [PList argv] :: startup cif ++ loop_trace verbosity s ++
     [Clock; done_line elapsed] ++ report_lines names verbosity (tokens s) ++
     [total_line n]) = Z.of_nat (length (tokens s)).
Proof.
  cbn [tokens_pulled]. rewrite !tokens_pulled_app.
  rewrite tokens_pulled_loop_trace, tokens_pulled_report_lines.
  cbn [tokens_pulled startup done_line total_line]. lia.
Qed.

Lemma last_completed (l1 l2 l3 l4 : list event) (ev0 ev : event) :
  last (ev0 :: l1 ++ l2 ++ l3 ++ l4 ++ [ev]) = Some ev.
Proof.
  change (ev0 :: l1 ++ l2 ++ l3 ++ l4 ++ [ev]) with ((ev0 :: l1) ++ l2 ++ l3 ++ l4 ++ [ev]).
  rewrite !app_assoc. apply last_snoc.
Qed.

Lemma last_loop_trace (verbosity : string) (s : token_stream) (l : list event) (ev0 : event) :
  last (ev0 :: l ++ loop_trace verbosity s) = Some (Next (ending (failure s))).
Proof.
  unfold loop_trace, pulls, printed_pulls.
  change (ev0 :: l ++ ?x) with ((ev0 :: l) ++ x).
  destruct (_ || _); rewrite app_assoc; apply last_snoc.
Qed.

Lemma rechecking_body_pulls_nothing (verbosity : string) (t : token) (vs : vars) :
  tokens_pulled (trace (rechecking_body verbosity t vs)) = 0.
Proof.
  unfold rechecking_body.
  destruct (String.eqb verbosity "q"); [reflexivity|].
  destruct (String.eqb verbosity "t").
  - now rewrite incr_type_table_silent.
  - unfold print. rewrite bind_emit. unfold trace at 1; cbn [fst].
    now rewrite incr_type_table_silent.
Qed.

(** The reference evaluates a test in every iteration. *)
Lemma rechecking_loop_tests_each_token (verbosity : string)
    (tokeniser : token_stream) (vs : vars) :
  tokens_pulled (effects (fst (exec_block verbosity rechecking_loop tokeniser vs))) <=
  Z.of_nat (tests_run (fst (exec_block verbosity rechecking_loop tokeniser vs))).
Proof.
  unfold rechecking_loop. cbn [exec_block].
  generalize (tokens tokeniser) as toks. intros toks. revert vs.
  induction toks as [|t toks IH]; intros vs.
  - cbn [traced_for_tokens_from]. destruct (failure tokeniser); simpl; lia.
  - cbn [traced_for_tokens_from].
    set (body := exec_action verbosity
                   (IfVerbosityIn "q" Count
                      (IfVerbosityIn "t" Incr (Then PrintToken Incr)))) in *.
    rewrite fst_tbind. cbn [traced emit trace outcome fst snd map app].
    rewrite fst_tbind.
    pose proof (rechecking_body_denotes verbosity t vs) as Hden. fold body in Hden.
    pose proof (rechecking_body_pulls_nothing verbosity t vs) as Hnone.
    rewrite <- Hden in Hnone. unfold erase, trace in Hnone; cbn [fst] in Hnone.
    assert (1 <= tests_run (fst (body t vs)))%nat as Hone.
    { unfold body. cbn [exec_action]. rewrite fst_tbind.
      unfold test_verbosity at 1. cbn [fst tests_run app]. lia. }
    cbn [effects tests_run tokens_pulled].
    rewrite effects_app, tests_run_app, tokens_pulled_app, Hnone.
    destruct (snd (body t vs)) as [vs'|e].
    + specialize (IH vs'). lia.
    + simpl. lia.
Qed.

(** A body without a test executes to effects only, and a program
    without a test inside its loop bodies evaluates all its tests before
    its first effect. *)
Lemma action_without_tests (verbosity : string) (a : action) :
  tests_in a = 0%nat ->
  forall t vs,
    exec_action verbosity a t vs = traced (erase (exec_action verbosity a t vs)).
Proof.
  induction a as [| | |first IH1 second IH2|c yes _ no _]; intros H t vs;
    try (cbn [exec_action]; now rewrite erase_traced).
  - cbn [tests_in] in H. cbn [exec_action].
    rewrite (IH1 ltac:(lia) t vs).
    rewrite (tbind_ext _ _ (fun vs' => traced (erase (exec_action verbosity second t vs'))))
      by (intros vs'; apply IH2; lia).
    now rewrite traced_bind, erase_traced.
  - discriminate H.
Qed.

Lemma tests_outside_loops_run_first (verbosity : string) (p : block)
    (tokeniser : token_stream) (vs : vars) :
  tests_in_loops p = 0%nat ->
  exists tests,
    fst (exec_block verbosity p tokeniser vs) =
      map Tested tests ++
      map Effect (effects (fst (exec_block verbosity p tokeniser vs))).
Proof.
  induction p as [body|c yes IHy no IHn]; intros H.
  - exists []. cbn [exec_block tests_in_loops map app] in *.
    rewrite (traced_for _ (fun t s' => erase (exec_action verbosity body t s')))
      by (intros; now apply action_without_tests).
    unfold traced; cbn [fst]. now rewrite effects_map_Effect.
  - cbn [tests_in_loops] in H. cbn [exec_block]. rewrite fst_tbind.
    unfold test_verbosity. cbn [fst snd].
    destruct (String.eqb verbosity c).
    + destruct (IHy ltac:(lia)) as [tests Ht]. exists (c :: tests).
      cbn [app effects map]. now rewrite Ht at 1.
    + destruct (IHn ltac:(lia)) as [tests Ht]. exists (c :: tests).
      cbn [app effects map]. now rewrite Ht at 1.
Qed.

Section Claims.

Variable start_matching : string -> result token_stream.
Variable _token_type_as_string : Z -> string.
Variable elapsed : string.

Local Abbreviation run_with := (run_with start_matching _token_type_as_string elapsed).
Local Abbreviation main := (main start_matching _token_type_as_string elapsed).

(** C2.  Lines 40-49, taken as program text, and the loop of the comment
    at lines 34-36, which tests the verbosity at each token, execute to
    the functions [consume] and [consume_rechecking], and for every
    token stream (ending normally or in an error), every verbosity and
    every state of the variables these two give the same run: the same
    effects in the same order, and the same final token count and
    per-category table or the same exception.  In the text of the script
    no verbosity test stands inside a loop body, and in its execution the
    verbosity is tested once or twice, before the first pull and never
    after, whatever the number of tokens; the reference evaluates at
    least one test for each token it pulls. *)
Theorem preselected_loops_test_verbosity_once (verbosity : string)
    (tokeniser : token_stream) (vs : vars) :
  let script := exec_block verbosity lines_40_49 tokeniser vs in
  let reference := exec_block verbosity rechecking_loop tokeniser vs in
  erase script = consume verbosity tokeniser vs /\
  erase reference = consume_rechecking verbosity tokeniser vs /\
  erase script = erase reference /\
  tests_in_loops lines_40_49 = 0%nat /\
  fst script =
    map Tested (if String.eqb verbosity "t" then ["t"] else ["t"; "q"]) ++
    map Effect (trace (consume verbosity tokeniser vs)) /\
  tokens_pulled (effects (fst reference)) <= Z.of_nat (tests_run (fst reference)).
Proof.
  intros script reference. unfold script, reference.
  split; [apply lines_40_49_denote|].
  split; [apply rechecking_loop_denotes|].
  split; [rewrite lines_40_49_denote, rechecking_loop_denotes;
          apply consume_eq_consume_rechecking|].
  split; [reflexivity|].
  split; [apply lines_40_49_trace|].
  apply rechecking_loop_tests_each_token.
Qed.

(** C7.  When the first argument begins with [-], has a character after
    it and is followed by a second argument, the verbosity is that
    character and the source path is the second argument; when the first
    argument begins with another character, the verbosity is [a] and the
    source path is the first argument.  In both cases the script goes on
    to construct the tokeniser and to hand it the resolved path, and
    these are its first effects after the echo of the arguments: no
    token is pulled before. *)
Theorem arguments_resolved (prog a1 : string) (rest : list string)
    (verbosity cif : string) :
  (exists c tl more,
     a1 = String "-" (String c tl) /\ rest = cif :: more /\
     verbosity = String c EmptyString) \/
  (exists ch tl,
     a1 = String ch tl /\ ch <> "-"%char /\ verbosity = "a" /\ cif = a1) ->
  parse_args (prog :: a1 :: rest) = ret (verbosity, cif) /\
  main (prog :: a1 :: rest) =
    (Printed [PList (prog :: a1 :: rest)] :: trace (run_with verbosity cif),
     outcome (run_with verbosity cif)) /\
  exists tail,
    trace (main (prog :: a1 :: rest)) =
      [Printed [PList (prog :: a1 :: rest)]; NewTokeniser; StartMatching cif] ++ tail.
Proof.
  intros H.
  assert (parse_args (prog :: a1 :: rest) = ret (verbosity, cif)) as Hp.
  { destruct H as [(c & tl & more & -> & -> & ->) | (ch & tl & -> & Hch & -> & ->)].
    - apply parse_args_dash.
    - now apply parse_args_plain. }
  split; [exact Hp|].
  pose proof (main_parsed start_matching _token_type_as_string elapsed _ _ _ Hp) as Hm.
  split; [exact Hm|].
  rewrite Hm. unfold run_with. rewrite !bind_emit.
  unfold trace at 1 2 3. cbn [fst]. eexists. reflexivity.
Qed.

(** C9.  A first argument [-c...] with [c] any character but [q] and [t]
    is accepted, and the run that follows is, effect for effect and in
    its result, the run of the default verbosity [a] on the same path:
    its loop is the loop that prints each token and updates the table. *)
Theorem unrecognised_verbosity_is_default (prog : string) (c : ascii)
    (tl path : string) (more : list string) :
  c <> "q"%char -> c <> "t"%char ->
  let argv := prog :: String "-" (String c tl) :: path :: more in
  parse_args argv = ret (String c EmptyString, path) /\
  (forall s vs,
     consume (String c EmptyString) s vs = for_tokens s print_and_histogram vs) /\
  main argv =
    (Printed [PList argv] :: trace (run_with "a" path), outcome (run_with "a" path)).
Proof.
  intros Hq Ht argv.
  assert (String c EmptyString <> "q") as Hq' by congruence.
  assert (String c EmptyString <> "t") as Ht' by congruence.
  split; [apply parse_args_dash|].
  split; [intros; now apply consume_default|].
  unfold argv.
  rewrite (main_parsed _ _ _ _ _ _ (parse_args_dash prog c tl path more)).
  now rewrite (run_with_default start_matching _token_type_as_string elapsed
                 (String c EmptyString) path Hq' Ht').
Qed.

(** C10.  Without a source path -- no argument after the script name,
    or a first argument that begins with [-] and nothing after it -- the
    script echoes its arguments and stops with an [IndexError]: the
    tokeniser is neither constructed nor started and no token is
    pulled. *)
Theorem missing_path_raises_IndexError (argv : list string) :
  (length argv <= 1)%nat \/ (exists prog tl, argv = [prog; String "-" tl]) ->
  main argv = ([Printed [PList argv]], Raise IndexError).
Proof.
  intros [H | (prog & tl & ->)]; apply main_unparsed.
  - now apply parse_args_short.
  - apply parse_args_dash_alone.
Qed.

(** C4.  With the verbosity [q] no table is allocated, and a run over a
    stream that ends normally consists of the start-up, one pull per
    token and the pull that ends the loop, the timing line and the total
    line, with nothing per category; the total is the number of tokens
    of the stream, all of them pulled. *)
Theorem quiet_run_counts_only (argv : list string) (cif : string) (s : token_stream) :
  parse_args argv = ret ("q", cif) ->
  start_matching cif = Ok s ->
  failure s = None ->
  let n := Z.of_nat (length (tokens s)) in
  type_table (initial_vars "q") = None /\
  main argv =
    (Printed [PList argv] :: startup cif ++
     (map (fun t => Next (Yield t)) (tokens s) ++ [Next Stop]) ++
     [Clock; done_line elapsed; total_line n],
     Ok {| type_table := None; ntokens := n |}) /\
  tokens_pulled (trace (main argv)) = n.
Proof.
  intros Hp Hs Hf n.
  pose proof (run_with_completed start_matching _token_type_as_string elapsed
                "q" cif s Hs Hf (or_introl eq_refl)) as Hrun.
  rewrite (main_parsed _ _ _ _ _ _ Hp), Hrun.
  split; [reflexivity|]. split.
  - unfold loop_trace, pulls. rewrite Hf. reflexivity.
  - unfold trace at 1. cbn [fst outcome snd]. apply tokens_pulled_completed.
Qed.

(** C5.  With the verbosity [t] the table has eighteen entries, all 0 at
    first.  On a stream whose token types are table entries, one
    iteration of the loop has no effect but to add one to the entry of
    the token's type, every other entry being left as it was; the loop
    as a whole performs pulls only, one per token and the final one, so
    that nothing is printed between the start-up and the end of the
    loop; and when the loop ends, entry [i] of the table is the number
    of tokens of type [i]. *)
Theorem table_run_increments_by_type (argv : list string) (cif : string)
    (s : token_stream) :
  parse_args argv = ret ("t", cif) ->
  start_matching cif = Ok s ->
  Forall category (tokens s) ->
  type_table (initial_vars "t") = Some (repeat 0 18%nat) /\
  (forall t tbl n, In t (tokens s) -> length tbl = 18%nat ->
     histogram_only t {| type_table := Some tbl; ntokens := n |} =
       ([], Ok {| type_table := Some (alter Z.succ (Z.to_nat (type t)) tbl);
                  ntokens := n |})) /\
  (exists tbl,
     consume "t" s (initial_vars "t") =
       (map (fun t => Next (Yield t)) (tokens s) ++ [Next (ending (failure s))],
        match failure s with
        | None => Ok {| type_table := Some tbl; ntokens := 0 |}
        | Some reason => Raise (TokeniserError reason)
        end) /\
     length tbl = 18%nat /\
     forall i, 0 <= i < 18 -> entry tbl i = count_type i (tokens s)) /\
  (exists rest,
     trace (main argv) =
       Printed [PList argv] :: startup cif ++
       (map (fun t => Next (Yield t)) (tokens s) ++ [Next (ending (failure s))]) ++ rest).
Proof.
  intros Hp Hs Hcat. split; [reflexivity|]. split; [|split].
  - intros t tbl n Hin Hlen. unfold histogram_only.
    rewrite List.Forall_forall in Hcat. specialize (Hcat t Hin).
    rewrite incr_type_table_indexed by (rewrite Hlen; exact Hcat).
    reflexivity.
  - exists (tally (tokens s) (repeat 0 18%nat)).
    split; [exact (consume_closed "t" s (or_intror Hcat))|].
    split; [now rewrite tally_length, repeat_length|].
    intros i Hi. now apply tally_entry.
  - rewrite (main_parsed _ _ _ _ _ _ Hp). unfold trace at 1; cbn [fst].
    destruct (failure s) as [reason|] eqn:Hf.
    + rewrite (run_with_failed _ _ _ "t" cif s reason Hs Hf (or_intror Hcat)).
      exists []. unfold trace; cbn [fst]. unfold loop_trace, pulls. rewrite Hf.
      now rewrite app_nil_r.
    + rewrite (run_with_completed _ _ _ "t" cif s Hs Hf (or_intror Hcat)).
      eexists. unfold trace; cbn [fst]. unfold loop_trace, pulls. rewrite Hf.
      reflexivity.
Qed.

(** C6.  With the verbosity [a], on a stream whose token types are table
    entries, one iteration of the loop prints the token and adds one to
    the entry of the token's type; and a run over such a stream that
    ends normally consists of the start-up, a pull and a print per
    token, the pull that ends the loop, the timing line, the header and
    one line for each of the types 1 to 17 carrying the number of tokens
    of that type, and the total line. *)
Theorem default_run_prints_and_counts (argv : list string) (cif : string)
    (s : token_stream) :
  parse_args argv = ret ("a", cif) ->
  start_matching cif = Ok s ->
  failure s = None ->
  Forall category (tokens s) ->
  (forall t tbl n, In t (tokens s) -> length tbl = 18%nat ->
     print_and_histogram t {| type_table := Some tbl; ntokens := n |} =
       ([Printed [PTok t]],
        Ok {| type_table := Some (alter Z.succ (Z.to_nat (type t)) tbl);
              ntokens := n |})) /\
  exists tbl total,
    main argv =
      (Printed [PList argv] :: startup cif ++
       (flat_map (fun t => [Next (Yield t); Printed [PTok t]]) (tokens s) ++ [Next Stop]) ++
       [Clock; done_line elapsed] ++
       (summary_header ::
        map (fun i => count_line (count_type i (tokens s)) (_token_type_as_string i))
            [1; 2; 3; 4; 5; 6; 7; 8; 9; 10; 11; 12; 13; 14; 15; 16; 17]) ++
       [total_line total],
       Ok {| type_table := Some tbl; ntokens := total |}) /\
    (forall i, 0 <= i < 18 -> entry tbl i = count_type i (tokens s)) /\
    total = Z.of_nat (length (tokens s)) - count_type 0 (tokens s).
Proof.
  intros Hp Hs Hf Hcat. split.
  - intros t tbl n Hin Hlen. unfold print_and_histogram, print.
    rewrite List.Forall_forall in Hcat. specialize (Hcat t Hin).
    rewrite bind_emit, incr_type_table_indexed by (rewrite Hlen; exact Hcat).
    reflexivity.
  - exists (tally (tokens s) (repeat 0 18%nat)),
           (Z.of_nat (length (tokens s)) - count_type 0 (tokens s)).
    split; [|split; [intros i Hi; now apply tally_entry|reflexivity]].
    rewrite (main_parsed _ _ _ _ _ _ Hp).
    rewrite (run_with_completed _ _ _ "a" cif s Hs Hf (or_intror Hcat)).
    unfold loop_trace, printed_pulls. rewrite Hf. reflexivity.
Qed.

(** Where the total does count the pulls: for every token stream that
    ends normally and every verbosity, provided the run is quiet or every
    token has a type from 1 to 17, the run completes and the grand total
    it reports on its last line is the number of tokens pulled from the
    stream, which is the number of tokens of the stream. *)
Theorem total_reports_counted_pulls (argv : list string) (verbosity cif : string)
    (s : token_stream) :
  parse_args argv = ret (verbosity, cif) ->
  start_matching cif = Ok s ->
  failure s = None ->
  verbosity = "q" \/ Forall counted (tokens s) ->
  exists vs,
    outcome (main argv) = Ok vs /\
    ntokens vs = tokens_pulled (trace (main argv)) /\
    last (trace (main argv)) = Some (total_line (tokens_pulled (trace (main argv)))) /\
    tokens_pulled (trace (main argv)) = Z.of_nat (length (tokens s)).
Proof.
  intros Hp Hs Hf H.
  assert (verbosity = "q" \/ Forall category (tokens s)) as H'
    by (destruct H; [now left|right; now apply counted_category]).
  assert (total verbosity (tokens s) = Z.of_nat (length (tokens s))) as Htot.
  { unfold total. destruct (String.eqb_spec verbosity "q"); [reflexivity|].
    destruct H as [H|H]; [contradiction|].
    rewrite counted_count_type_zero by assumption. lia. }
  rewrite (main_parsed _ _ _ _ _ _ Hp).
  rewrite (run_with_completed _ _ _ verbosity cif s Hs Hf H').
  unfold trace, outcome; cbn [fst snd].
  rewrite tokens_pulled_completed, last_completed, Htot.
  eexists. repeat split; reflexivity.
Qed.

(** C3.  On a stream that ends normally and whose token types are table
    entries, a run that is not quiet prints, after the header, one line
    for each of the indices 1 to 17 and none for the index 0, and its
    total is the number of tokens less those of type 0, which the table
    holds in entry 0; the quiet run over the same stream reports the
    number of tokens.  Hence the quiet total is at least the other one,
    and the two are equal exactly when no token has type 0. *)
Theorem summary_skips_entry_0 (argvq argv : list string) (verbosity cif : string)
    (s : token_stream) :
  parse_args argvq = ret ("q", cif) ->
  parse_args argv = ret (verbosity, cif) ->
  verbosity <> "q" ->
  start_matching cif = Ok s ->
  failure s = None ->
  Forall category (tokens s) ->
  let quiet_total := Z.of_nat (length (tokens s)) in
  let table_total := quiet_total - count_type 0 (tokens s) in
  (exists tbl,
     outcome (main argv) = Ok {| type_table := Some tbl; ntokens := table_total |} /\
     entry tbl 0 = count_type 0 (tokens s)) /\
  trace (main argv) =
    Printed [PList argv] :: startup cif ++ loop_trace verbosity s ++
    [Clock; done_line elapsed] ++
    (summary_header ::
     map (fun i => count_line (count_type i (tokens s)) (_token_type_as_string i))
         [1; 2; 3; 4; 5; 6; 7; 8; 9; 10; 11; 12; 13; 14; 15; 16; 17]) ++
    [total_line table_total] /\
  outcome (main argvq) = Ok {| type_table := None; ntokens := quiet_total |} /\
  last (trace (main argvq)) = Some (total_line quiet_total) /\
  table_total <= quiet_total /\
  (quiet_total = table_total <-> Forall (fun t => type t <> 0) (tokens s)).
Proof.
  intros Hq Hp Hv Hs Hf Hcat quiet_total table_total.
  rewrite (main_parsed _ _ _ _ _ _ Hp), (main_parsed _ _ _ _ _ _ Hq).
  rewrite (run_with_completed _ _ _ verbosity cif s Hs Hf (or_intror Hcat)).
  rewrite (run_with_completed _ _ _ "q" cif s Hs Hf (or_introl eq_refl)).
  unfold trace, outcome; cbn [fst snd].
  unfold total, final_table, report_lines.
  destruct (String.eqb_spec verbosity "q") as [E|_]; [contradiction|].
  change (String.eqb "q" "q") with true. cbv iota.
  pose proof (count_type_nonneg 0 (tokens s)) as Hn.
  split; [|split; [|split; [|split; [|split]]]].
  - eexists. split; [reflexivity|]. apply tally_entry; [assumption|lia].
  - reflexivity.
  - reflexivity.
  - apply last_completed.
  - unfold table_total. lia.
  - rewrite <- count_type_zero. unfold table_total. lia.
Qed.

(** C8.  When the pull after the last token of the stream raises, the
    run does not complete: it ends in an exception, and no timing line,
    header, per-category line or total line is ever printed.  When
    moreover the run is quiet or the token types are table entries, so
    that the failing pull is reached, the exception is the tokeniser's
    own error, and the failing pull is the last effect of the run:
    nothing is pulled or printed after it. *)
Theorem pull_error_is_fatal (argv : list string) (verbosity cif : string)
    (s : token_stream) (reason : string) :
  parse_args argv = ret (verbosity, cif) ->
  start_matching cif = Ok s ->
  failure s = Some reason ->
  (exists e, outcome (main argv) = Raise e) /\
  Forall (fun ev => ~ is_report elapsed ev) (trace (main argv)) /\
  (verbosity = "q" \/ Forall category (tokens s) ->
   outcome (main argv) = Raise (TokeniserError reason) /\
   last (trace (main argv)) = Some (Next (Failed reason)) /\
   tokens_pulled (trace (main argv)) = Z.of_nat (length (tokens s))).
Proof.
  intros Hp Hs Hf.
  rewrite (main_parsed _ _ _ _ _ _ Hp). unfold trace at 1 2, outcome at 1 2; cbn [fst snd].
  split; [|split].
  - destruct (consume_failing verbosity s (initial_vars verbosity) reason Hf) as [e He].
    exists e.
    now rewrite (run_with_raised _ _ _ verbosity cif s _ e Hs
                   (eq_trans (run_eta _) (f_equal (pair _) He))).
  - destruct (consume_failing verbosity s (initial_vars verbosity) reason Hf) as [e He].
    rewrite (run_with_raised _ _ _ verbosity cif s _ e Hs
               (eq_trans (run_eta _) (f_equal (pair _) He))).
    unfold trace at 1; cbn [fst].
    apply (Forall_app_2 _ (Printed [PList argv] :: startup cif));
      [apply startup_not_report|].
    eapply Forall_impl; [apply consume_events|].
    intros ev. apply loop_event_not_report.
  - intros H.
    rewrite (run_with_failed _ _ _ verbosity cif s reason Hs Hf H).
    unfold trace, outcome; cbn [fst snd].
    split; [reflexivity|]. split.
    + rewrite last_loop_trace, Hf. reflexivity.
    + cbn [tokens_pulled]. rewrite tokens_pulled_app, tokens_pulled_loop_trace.
      reflexivity.
Qed.

End Claims.

(** ** The properties on sample invocations *)

Lemma scenario_A_counted : Forall counted (tokens scenario_A).
Proof. repeat (constructor; [unfold counted; simpl; lia|]). constructor. Defined.

Lemma scenario_A_category : Forall category (tokens scenario_A).
Proof. repeat (constructor; [unfold category; simpl; lia|]). constructor. Defined.

Lemma with_type_0_category : Forall category (tokens with_type_0).
Proof. repeat (constructor; [unfold category; simpl; lia|]). constructor. Defined.

Lemma unterminated_category : Forall category (tokens unterminated).
Proof. repeat (constructor; [unfold category; simpl; lia|]). constructor. Defined.


Lemma total_reports_counted_pulls_witness :
  let argv := ["star_example.py"; "-t"; "a.cif"] in
  parse_args argv = ret ("t", "a.cif") /\
  sample_start_matching "a.cif" = Ok scenario_A /\
  failure scenario_A = None /\
  ("t" = "q" \/ Forall counted (tokens scenario_A)) /\
  exists vs,
    outcome (sample_main argv) = Ok vs /\
    ntokens vs = tokens_pulled (trace (sample_main argv)) /\
    last (trace (sample_main argv)) =
      Some (total_line (tokens_pulled (trace (sample_main argv)))) /\
    tokens_pulled (trace (sample_main argv)) = 8.
Proof.
  intros argv.
  split; [reflexivity|]. split; [reflexivity|]. split; [reflexivity|].
  split; [right; exact scenario_A_counted|].
  exact (total_reports_counted_pulls sample_start_matching sample_names "0.01"
           argv "t" "a.cif" scenario_A eq_refl eq_refl eq_refl
           (or_intror scenario_A_counted)).
Defined.

Lemma summary_skips_entry_0_witness :
  let argvq := ["star_example.py"; "-q"; "zero.cif"] in
  let argv := ["star_example.py"; "zero.cif"] in
  parse_args argvq = ret ("q", "zero.cif") /\
  parse_args argv = ret ("a", "zero.cif") /\
  "a" <> "q" /\
  sample_start_matching "zero.cif" = Ok with_type_0 /\
  failure with_type_0 = None /\
  Forall category (tokens with_type_0) /\
  outcome (sample_main argvq) = Ok {| type_table := None; ntokens := 1 |} /\
  last (trace (sample_main argvq)) = Some (total_line 1) /\
  0 <= 1 /\
  (1 = 0 <-> Forall (fun t => type t <> 0) (tokens with_type_0)).
Proof.
  intros argvq argv.
  assert ("a" <> "q") as Hne by discriminate.
  split; [reflexivity|]. split; [reflexivity|]. split; [exact Hne|].
  split; [reflexivity|]. split; [reflexivity|].
  split; [exact with_type_0_category|].
  exact (proj2 (proj2
    (summary_skips_entry_0 sample_start_matching sample_names "0.01"
       argvq argv "a" "zero.cif" with_type_0 eq_refl eq_refl Hne eq_refl eq_refl
       with_type_0_category))).
Defined.

Lemma quiet_run_counts_only_witness :
  let argv := ["star_example.py"; "-q"; "a.cif"] in
  parse_args argv = ret ("q", "a.cif") /\
  sample_start_matching "a.cif" = Ok scenario_A /\
  failure scenario_A = None /\
  tokens_pulled (trace (sample_main argv)) = 8.
Proof.
  intros argv.
  split; [reflexivity|]. split; [reflexivity|]. split; [reflexivity|].
  exact (proj2 (proj2
    (quiet_run_counts_only sample_start_matching sample_names "0.01"
       argv "a.cif" scenario_A eq_refl eq_refl eq_refl))).
Defined.

Lemma table_run_increments_by_type_witness :
  let argv := ["star_example.py"; "-t"; "a.cif"] in
  parse_args argv = ret ("t", "a.cif") /\
  sample_start_matching "a.cif" = Ok scenario_A /\
  Forall category (tokens scenario_A) /\
  type_table (initial_vars "t") = Some (repeat 0 18%nat).
Proof.
  intros argv.
  split; [reflexivity|]. split; [reflexivity|].
  split; [exact scenario_A_category|].
  exact (proj1
    (table_run_increments_by_type sample_start_matching sample_names "0.01"
       argv "a.cif" scenario_A eq_refl eq_refl scenario_A_category)).
Defined.

Lemma default_run_prints_and_counts_witness :
  let argv := ["star_example.py"; "a.cif"] in
  parse_args argv = ret ("a", "a.cif") /\
  sample_start_matching "a.cif" = Ok scenario_A /\
  failure scenario_A = None /\
  Forall category (tokens scenario_A) /\
  exists tbl total,
    main sample_start_matching sample_names "0.01" argv =
      (Printed [PList argv] :: startup "a.cif" ++
       (flat_map (fun t => [Next (Yield t); Printed [PTok t]]) (tokens scenario_A) ++
        [Next Stop]) ++
       [Clock; done_line "0.01"] ++
       (summary_header ::
        map (fun i => count_line (count_type i (tokens scenario_A)) (sample_names i))
            [1; 2; 3; 4; 5; 6; 7; 8; 9; 10; 11; 12; 13; 14; 15; 16; 17]) ++
       [total_line total],
       Ok {| type_table := Some tbl; ntokens := total |}) /\
    (forall i, 0 <= i < 18 -> entry tbl i = count_type i (tokens scenario_A)) /\
    total = 8.
Proof.
  intros argv.
  split; [reflexivity|]. split; [reflexivity|]. split; [reflexivity|].
  split; [exact scenario_A_category|].
  exact (proj2
    (default_run_prints_and_counts sample_start_matching sample_names "0.01"
       argv "a.cif" scenario_A eq_refl eq_refl eq_refl scenario_A_category)).
Defined.

Lemma arguments_resolved_witness :
  parse_args ["star_example.py"; "-q"; "a.cif"] = ret ("q", "a.cif") /\
  parse_args ["star_example.py"; "a.cif"] = ret ("a", "a.cif").
Proof.
  split.
  - refine (proj1
      (arguments_resolved sample_start_matching sample_names "0.01"
         "star_example.py" "-q" ["a.cif"] "q" "a.cif" (or_introl _))).
    exists "q"%char, EmptyString, []. repeat split; reflexivity.
  - refine (proj1
      (arguments_resolved sample_start_matching sample_names "0.01"
         "star_example.py" "a.cif" [] "a" "a.cif" (or_intror _))).
    exists "a"%char, ".cif". repeat split; try reflexivity. discriminate.
Defined.

Lemma pull_error_is_fatal_witness :
  let argv := ["star_example.py"; "bad.cif"] in
  parse_args argv = ret ("a", "bad.cif") /\
  sample_start_matching "bad.cif" = Ok unterminated /\
  failure unterminated = Some "unterminated quoted string" /\
  Forall category (tokens unterminated) /\
  outcome (sample_main argv) = Raise (TokeniserError "unterminated quoted string") /\
  last (trace (sample_main argv)) = Some (Next (Failed "unterminated quoted string")) /\
  tokens_pulled (trace (sample_main argv)) = 1.
Proof.
  intros argv.
  split; [reflexivity|]. split; [reflexivity|]. split; [reflexivity|].
  split; [exact unterminated_category|].
  exact (proj2 (proj2
    (pull_error_is_fatal sample_start_matching sample_names "0.01"
       argv "a" "bad.cif" unterminated "unterminated quoted string"
       eq_refl eq_refl eq_refl)) (or_intror unterminated_category)).
Defined.

Lemma unrecognised_verbosity_is_default_witness :
  "x"%char <> "q"%char /\ "x"%char <> "t"%char /\
  parse_args ["star_example.py"; "-x"; "a.cif"] = ret ("x", "a.cif").
Proof.
  assert ("x"%char <> "q"%char) as Hq by discriminate.
  assert ("x"%char <> "t"%char) as Ht by discriminate.
  split; [exact Hq|]. split; [exact Ht|].
  exact (proj1
    (unrecognised_verbosity_is_default sample_start_matching sample_names "0.01"
       "star_example.py" "x"%char EmptyString "a.cif" [] Hq Ht)).
Defined.

Lemma missing_path_raises_IndexError_witness :
  (length ["star_example.py"] <= 1)%nat /\
  sample_main ["star_example.py"] = ([Printed [PList ["star_example.py"]]], Raise IndexError) /\
  sample_main ["star_example.py"; "-q"] =
    ([Printed [PList ["star_example.py"; "-q"]]], Raise IndexError).
Proof.
  assert (length ["star_example.py"] <= 1)%nat as H by (simpl; lia).
  split; [exact H|]. split.
  - exact (missing_path_raises_IndexError sample_start_matching sample_names "0.01"
             ["star_example.py"] (or_introl H)).
  - refine (missing_path_raises_IndexError sample_start_matching sample_names "0.01"
              ["star_example.py"; "-q"] (or_intror _)).
    exists "star_example.py", "q". reflexivity.
Defined.

(** * Further properties of the script *)

(** ** Indexing from the end and beyond the bounds *)

Lemma py_index_wrapped (len : nat) (i : Z) :
  - Z.of_nat len <= i < Z.of_nat len ->
  py_index len i = ret (Z.to_nat (if i <? 0 then i + Z.of_nat len else i)).
Proof.
  intros H. unfold py_index.
  destruct (Z.ltb_spec i 0).
  - destruct (Z.leb_spec 0 (i + Z.of_nat len)); [|lia].
    destruct (Z.ltb_spec (i + Z.of_nat len) (Z.of_nat len)); [reflexivity|lia].
  - destruct (Z.leb_spec 0 i); [|lia].
    destruct (Z.ltb_spec i (Z.of_nat len)); [reflexivity|lia].
Qed.

Lemma py_index_outside (len : nat) (i : Z) :
  i < - Z.of_nat len \/ Z.of_nat len <= i ->
  py_index len i = raise IndexError.
Proof.
  intros H. unfold py_index.
  destruct (Z.ltb_spec i 0).
  - destruct (Z.leb_spec 0 (i + Z.of_nat len)); [lia|reflexivity].
  - destruct (Z.ltb_spec i (Z.of_nat len)); [lia|]. now rewrite andb_false_r.
Qed.

Lemma indexable_dec (t : token) : indexable t \/ ~ indexable t.
Proof. unfold indexable. lia. Qed.

Lemma wrapped_category (t : token) : indexable t -> category (wrapped t).
Proof.
  unfold indexable, category, wrapped, table_slot. simpl.
  destruct (Z.ltb_spec (type t) 0); lia.
Qed.

Lemma incr_type_table_wrapped (t : token) (tbl : list Z) (n : Z) :
  length tbl = 18%nat -> indexable t ->
  incr_type_table t {| type_table := Some tbl; ntokens := n |} =
    ret {| type_table := Some (bump tbl (wrapped t)); ntokens := n |}.
Proof.
  intros Hlen Ht. pose proof (wrapped_category t Ht) as Hc.
  unfold indexable in Ht. unfold category, wrapped in Hc. simpl in Hc.
  assert (py_index (length tbl) (type t) = ret (Z.to_nat (table_slot t))) as Hi.
  { rewrite py_index_wrapped by (rewrite Hlen; lia).
    unfold table_slot. now rewrite Hlen. }
  destruct (lookup_lt_is_Some_2 tbl (Z.to_nat (table_slot t))) as [x Hx]; [lia|].
  unfold incr_type_table, py_getitem, py_setitem; simpl.
  rewrite Hi, !bind_ret, Hx, bind_ret. unfold bump, wrapped; simpl.
  now rewrite (insert_succ_alter tbl _ x).
Qed.

Lemma incr_type_table_outside (t : token) (tbl : list Z) (n : Z) :
  length tbl = 18%nat -> ~ indexable t ->
  incr_type_table t {| type_table := Some tbl; ntokens := n |} = raise IndexError.
Proof.
  intros Hlen Ht. unfold indexable in Ht.
  unfold incr_type_table, py_getitem; simpl.
  now rewrite py_index_outside by (rewrite Hlen; lia).
Qed.

Lemma count_slot_wrapped (i : Z) (toks : list token) :
  count_type i (map wrapped toks) = count_slot i toks.
Proof. induction toks as [|t toks IH]; [reflexivity|]. simpl. now rewrite IH. Qed.

Lemma count_slot_nonneg (i : Z) (toks : list token) : 0 <= count_slot i toks.
Proof. rewrite <- count_slot_wrapped. apply count_type_nonneg. Qed.

Lemma wrapped_all_category (toks : list token) :
  Forall indexable toks -> Forall category (map wrapped toks).
Proof.
  induction 1 as [|t toks Ht _ IH]; simpl; constructor.
  - now apply wrapped_category.
  - exact IH.
Qed.

(** A stream is made of indexable tokens, or has a first token that is
    not. *)
Lemma first_not_indexable (toks : list token) :
  Forall indexable toks \/
  exists pre bad post,
    toks = pre ++ bad :: post /\ Forall indexable pre /\ ~ indexable bad.
Proof.
  induction toks as [|t toks IH]; [left; constructor|].
  destruct (indexable_dec t) as [Ht|Ht].
  - destruct IH as [IH | (pre & bad & post & -> & Hpre & Hbad)].
    + left. now constructor.
    + right. exists (t :: pre), bad, post. repeat split; [now constructor|assumption].
  - right. exists [], t, toks. repeat split; [constructor|assumption].
Qed.

(** ** Loops over a stream with a well-behaved prefix *)

Lemma for_tokens_from_app {S} (P : S -> Prop) (pr : token -> list event)
    (step : token -> S -> S) (body : token -> S -> Run S)
    (pre rest : list token) (fail : option string) (s : S) :
  (forall t s', In t pre -> P s' ->
     body t s' = (pr t, Ok (step t s')) /\ P (step t s')) ->
  P s ->
  let continued :=
    for_tokens_from rest fail body (fold_left (fun s' t => step t s') pre s) in
  for_tokens_from (pre ++ rest) fail body s =
    (flat_map (fun t => Next (Yield t) :: pr t) pre ++ trace continued,
     outcome continued) /\
  P (fold_left (fun s' t => step t s') pre s).
Proof.
  revert s. induction pre as [|t pre IH]; intros s Hbody Hs continued.
  - split; [apply run_eta|exact Hs].
  - destruct (Hbody t s) as [Hb Hs']; [now left|assumption|].
    destruct (IH (step t s)) as [IHeq IHP];
      [intros t' s' Hin; apply Hbody; now right|assumption|].
    split; [|exact IHP].
    cbn [app for_tokens_from]. rewrite bind_emit, Hb, bind_ok, IHeq.
    unfold trace at 1 2, outcome at 1 2. cbn [fst snd flat_map].
    now rewrite <- app_assoc.
Qed.

Lemma fold_wrapped_step (toks : list token) (tbl : list Z) (n : Z) :
  fold_left (fun vs t => table_step (wrapped t) vs) toks
    {| type_table := Some tbl; ntokens := n |} =
  {| type_table := Some (tally (map wrapped toks) tbl); ntokens := n |}.
Proof.
  revert tbl. induction toks as [|t toks IH]; intros tbl; [reflexivity|].
  simpl. unfold table_step at 2. simpl. apply IH.
Qed.

Lemma table_body_shape (verbosity : string) (t : token) (vs : vars) :
  verbosity <> "q" ->
  table_body verbosity t vs =
    ((per_token verbosity t, Ok tt) ;;; incr_type_table t vs).
Proof.
  intros Hq. unfold table_body, per_token.
  destruct (String.eqb_spec verbosity "q") as [E|_]; [contradiction|].
  destruct (String.eqb verbosity "t"); cbn [orb].
  - symmetry. exact (bind_ret tt _).
  - reflexivity.
Qed.

Lemma consume_table_body (verbosity : string) (s : token_stream) (vs : vars) :
  verbosity <> "q" ->
  consume verbosity s vs = for_tokens s (table_body verbosity) vs.
Proof.
  intros Hq. unfold consume, table_body.
  destruct (String.eqb verbosity "t"); [reflexivity|].
  now destruct (String.eqb_spec verbosity "q").
Qed.

(** The loop of a verbosity other than [q], run up to the end of a
    prefix of indexable tokens. *)
Lemma consume_prefix (verbosity : string) (s : token_stream)
    (pre rest : list token) :
  verbosity <> "q" ->
  tokens s = pre ++ rest ->
  Forall indexable pre ->
  let continued :=
    for_tokens_from rest (failure s) (table_body verbosity)
      {| type_table := Some (tally (map wrapped pre) (repeat 0 18%nat));
         ntokens := 0 |} in
  consume verbosity s (initial_vars verbosity) =
    (flat_map (fun t => Next (Yield t) :: per_token verbosity t) pre ++ trace continued,
     outcome continued).
Proof.
  intros Hq Htoks Hpre continued.
  rewrite consume_table_body, initial_vars_table by assumption.
  unfold for_tokens. rewrite Htoks.
  destruct (for_tokens_from_app
              (fun vs => exists tb, type_table vs = Some tb /\ length tb = 18%nat)
              (per_token verbosity) (fun t vs => table_step (wrapped t) vs)
              (table_body verbosity) pre rest (failure s)
              {| type_table := Some (repeat 0 18%nat); ntokens := 0 |})
    as [Heq _].
  - intros t [tb m] Hin (tb' & E & Hlen). simpl in E. subst tb.
    rewrite List.Forall_forall in Hpre. specialize (Hpre t Hin).
    rewrite table_body_shape, incr_type_table_wrapped by assumption.
    rewrite bind_ok. unfold ret, trace, outcome; simpl. rewrite app_nil_r.
    split; [reflexivity|].
    exists (bump tb' (wrapped t)). split; [reflexivity|]. now rewrite bump_length.
  - exists (repeat 0 18%nat). split; [reflexivity|apply repeat_length].
  - rewrite Heq, fold_wrapped_step. reflexivity.
Qed.

(** ** Arguments that do not parse *)

Lemma parse_args_empty_first (prog : string) (rest : list string) :
  parse_args (prog :: EmptyString :: rest) = raise IndexError.
Proof.
  unfold parse_args.
  rewrite (py_getitem_in_range _ 1 EmptyString), bind_ret by (reflexivity || lia).
  now rewrite str_getitem_beyond by (simpl; lia).
Qed.

Lemma parse_args_bare_dash (prog : string) (rest : list string) :
  parse_args (prog :: "-" :: rest) = raise IndexError.
Proof.
  unfold parse_args.
  rewrite (py_getitem_in_range _ 1 "-"), bind_ret by (reflexivity || lia).
  rewrite (str_getitem_in_range _ 0 "-"), bind_ret by (reflexivity || lia).
  change (String.eqb "-" "-") with true. cbv iota. rewrite bind_ret.
  now rewrite str_getitem_beyond by (simpl; lia).
Qed.

Lemma lacks_path_raises (argv : list string) :
  lacks_path argv -> parse_args argv = raise IndexError.
Proof.
  intros [H | [(prog & rest & ->) | [(prog & rest & ->) | (prog & c & tl & ->)]]].
  - now apply parse_args_short.
  - apply parse_args_empty_first.
  - apply parse_args_bare_dash.
  - apply parse_args_dash_alone.
Qed.

(** Every argument list lacks a path, or carries a selector and a path,
    or begins with a path. *)
Lemma argv_shapes (argv : list string) :
  lacks_path argv \/
  (exists prog c tl path more,
     argv = prog :: String "-" (String c tl) :: path :: more) \/
  (exists prog ch tl more,
     argv = prog :: String ch tl :: more /\ ch <> "-"%char).
Proof.
  destruct argv as [|prog [|a1 rest]];
    [left; left; simpl; lia|left; left; simpl; lia|].
  destruct a1 as [|ch tl]; [left; right; left; eauto|].
  destruct (Ascii.eqb_spec ch "-") as [->|Hch];
    [|right; right; exists prog, ch, tl, rest; now split].
  destruct tl as [|c tl]; [left; right; right; left; eauto|].
  destruct rest as [|path more].
  - left. right. right. right. eauto.
  - right. left. eauto 6.
Qed.

Lemma parse_args_outcomes (argv : list string) :
  (lacks_path argv /\ parse_args argv = raise IndexError) \/
  (~ lacks_path argv /\ exists verbosity cif, parse_args argv = ret (verbosity, cif)).
Proof.
  destruct (argv_shapes argv)
    as [H | [(prog & c & tl & path & more & ->) | (prog & ch & tl & more & -> & Hch)]].
  - left. split; [assumption|now apply lacks_path_raises].
  - right. split; [|eexists _, _; apply parse_args_dash].
    intros H. apply lacks_path_raises in H.
    rewrite parse_args_dash in H. discriminate H.
  - right. split; [|eexists _, _; now apply parse_args_plain].
    intros H. apply lacks_path_raises in H.
    rewrite parse_args_plain in H by assumption. discriminate H.
Qed.

(** ** Runs that stop in the loop *)

Lemma tally_wrapped_length (toks : list token) :
  length (tally (map wrapped toks) (repeat 0 18%nat)) = 18%nat.
Proof. now rewrite tally_length, repeat_length. Qed.

Lemma consume_stops_outside (verbosity : string) (s : token_stream)
    (pre post : list token) (bad : token) :
  verbosity <> "q" ->
  tokens s = pre ++ bad :: post ->
  Forall indexable pre ->
  ~ indexable bad ->
  consume verbosity s (initial_vars verbosity) =
    (flat_map (fun t => Next (Yield t) :: per_token verbosity t) pre ++
     Next (Yield bad) :: per_token verbosity bad,
     Raise IndexError).
Proof.
  intros Hq Htoks Hpre Hbad.
  rewrite (consume_prefix verbosity s pre (bad :: post) Hq Htoks Hpre).
  cbn [for_tokens_from]. rewrite bind_emit, table_body_shape by assumption.
  rewrite incr_type_table_outside by (apply tally_wrapped_length || assumption).
  rewrite bind_ok. unfold raise, trace, outcome; cbn [fst snd].
  rewrite bind_failed. cbn [fst snd]. now rewrite app_nil_r.
Qed.

Lemma consume_wrapped (verbosity : string) (s : token_stream) :
  verbosity <> "q" ->
  Forall indexable (tokens s) ->
  consume verbosity s (initial_vars verbosity) =
    (flat_map (fun t => Next (Yield t) :: per_token verbosity t) (tokens s) ++
     [Next (ending (failure s))],
     match failure s with
     | None => Ok {| type_table := Some (tally (map wrapped (tokens s)) (repeat 0 18%nat));
                     ntokens := 0 |}
     | Some reason => Raise (TokeniserError reason)
     end).
Proof.
  intros Hq Hall.
  rewrite (consume_prefix verbosity s (tokens s) [] Hq) by (now rewrite ?app_nil_r).
  cbn [for_tokens_from]. now destruct (failure s).
Qed.

Lemma yielded_app (tr tr' : list event) :
  yielded (tr ++ tr') = yielded tr ++ yielded tr'.
Proof.
  induction tr as [|ev tr IH]; [reflexivity|].
  destruct ev as [items| |cif|[t| |reason]|]; simpl; now rewrite ?IH.
Qed.

Lemma printed_tokens_app (tr tr' : list event) :
  printed_tokens (tr ++ tr') = printed_tokens tr ++ printed_tokens tr'.
Proof.
  induction tr as [|ev tr IH]; [reflexivity|].
  destruct ev as [[|[s0|n0|t0|l0] [|i items]]| |cif|p|]; simpl; now rewrite ?IH.
Qed.

Lemma yielded_per_token (verbosity : string) (toks : list token) :
  yielded (flat_map (fun t => Next (Yield t) :: per_token verbosity t) toks) = toks.
Proof.
  induction toks as [|t toks IH]; [reflexivity|].
  cbn [flat_map]. unfold per_token at 1.
  destruct (_ || _); simpl; now rewrite ?yielded_app, IH.
Qed.

Lemma printed_per_token (verbosity : string) (toks : list token) :
  printed_tokens (flat_map (fun t => Next (Yield t) :: per_token verbosity t) toks) =
    if String.eqb verbosity "t" || String.eqb verbosity "q" then [] else toks.
Proof.
  unfold per_token.
  induction toks as [|t toks IH]; [now destruct (_ || _)|].
  cbn [flat_map]. destruct (_ || _); simpl; now rewrite IH.
Qed.

(** ** What a loop can end in, and what it pulls *)

Lemma for_tokens_from_outcome {S} (P : S -> Prop) (E : exn -> Prop)
    (body : token -> S -> Run S) (toks : list token) (fail : option string) (s : S) :
  (forall t s', P s' ->
     match outcome (body t s') with Ok s'' => P s'' | Raise e => E e end) ->
  (forall reason, E (TokeniserError reason)) ->
  P s ->
  match outcome (for_tokens_from toks fail body s) with
  | Ok s'' => P s''
  | Raise e => E e
  end.
Proof.
  intros Hbody HE. revert s. induction toks as [|t toks IH]; intros s Hs.
  - destruct fail; simpl; [apply HE|exact Hs].
  - cbn [for_tokens_from]. rewrite bind_emit. unfold outcome at 1; cbn [snd].
    specialize (Hbody t s Hs). destruct (body t s) as [tr [s'|e]].
    + rewrite bind_ok. unfold outcome at 1; cbn [snd]. apply IH. exact Hbody.
    + exact Hbody.
Qed.

Lemma for_tokens_from_single_pass {St} (pr : token -> list event)
    (body : token -> St -> Run St) (toks : list token) (fail : option string) (s : St) :
  (forall t s', trace (body t s') = pr t) ->
  exists k fin,
    trace (for_tokens_from toks fail body s) =
      flat_map (fun t => Next (Yield t) :: pr t) (take k toks) ++ fin /\
    (fin = [] \/ fin = [Next (ending fail)]) /\
    (forall s', outcome (for_tokens_from toks fail body s) = Ok s' ->
       take k toks = toks).
Proof.
  intros Hbody. revert s. induction toks as [|t toks IH]; intros s.
  - exists 0%nat, [Next (ending fail)]. repeat split; [|now right].
    now destruct fail.
  - cbn [for_tokens_from]. rewrite bind_emit.
    specialize (Hbody t s). destruct (body t s) as [tr [s'|e]].
    + destruct (IH s') as (k & fin & Htr & Hfin & Hall).
      exists (S k), fin. rewrite bind_ok.
      unfold trace, outcome in *; cbn [fst snd take flat_map] in *.
      subst tr. rewrite Htr. repeat split.
      * now rewrite <- !app_assoc.
      * exact Hfin.
      * intros s'' H. f_equal. now apply (Hall s'').
    + exists 1%nat, []. rewrite bind_failed.
      unfold trace, outcome in *; cbn [fst snd take flat_map] in *.
      subst tr. rewrite !app_nil_r. repeat split; [now left|discriminate].
Qed.

Lemma table_body_outcome (verbosity : string) (t : token) (tbl : list Z) :
  verbosity <> "q" -> length tbl = 18%nat ->
  match outcome (table_body verbosity t {| type_table := Some tbl; ntokens := 0 |}) with
  | Ok vs => exists tbl', vs = {| type_table := Some tbl'; ntokens := 0 |} /\
                          length tbl' = 18%nat
  | Raise e => e = IndexError
  end.
Proof.
  intros Hq Hlen. rewrite table_body_shape by assumption.
  destruct (indexable_dec t) as [Ht|Ht].
  - rewrite incr_type_table_wrapped, bind_ok by assumption.
    unfold outcome, ret; cbn [snd]. eexists. split; [reflexivity|].
    now rewrite bump_length.
  - rewrite incr_type_table_outside, bind_ok by assumption. reflexivity.
Qed.

(** The loop of a run ends with the variables as the summary expects
    them, or in an [IndexError] or an error of the tokeniser. *)
Lemma consume_outcome (verbosity : string) (s : token_stream) :
  match outcome (consume verbosity s (initial_vars verbosity)) with
  | Ok vs =>
      (verbosity = "q" /\ type_table vs = None) \/
      (verbosity <> "q" /\
       exists tbl, vs = {| type_table := Some tbl; ntokens := 0 |} /\
                   length tbl = 18%nat)
  | Raise e => e = IndexError \/ exists reason, e = TokeniserError reason
  end.
Proof.
  destruct (String.eqb_spec verbosity "q") as [->|Hq].
  - change (consume "q" s (initial_vars "q"))
      with (for_tokens_from (tokens s) (failure s) count_only
              {| type_table := None; ntokens := 0 |}).
    rewrite counting_loop. unfold outcome; cbn [snd].
    destruct (failure s); [right; eauto|left; now split].
  - rewrite consume_table_body, initial_vars_table by assumption.
    unfold for_tokens.
    pose proof (for_tokens_from_outcome
      (fun vs => exists tbl, vs = {| type_table := Some tbl; ntokens := 0 |} /\
                             length tbl = 18%nat)
      (fun e => e = IndexError \/ exists reason, e = TokeniserError reason)
      (table_body verbosity) (tokens s) (failure s)
      {| type_table := Some (repeat 0 18%nat); ntokens := 0 |}) as H.
    destruct (outcome _) as [vs|e].
    + right. split; [assumption|]. apply H.
      * intros t vs' (tbl & -> & Hlen).
        pose proof (table_body_outcome verbosity t tbl Hq Hlen) as Hb.
        destruct (outcome _); [exact Hb|now left].
      * right. eauto.
      * eexists. split; [reflexivity|apply repeat_length].
    + apply H.
      * intros t vs' (tbl & -> & Hlen).
        pose proof (table_body_outcome verbosity t tbl Hq Hlen) as Hb.
        destruct (outcome _); [exact Hb|now left].
      * right. eauto.
      * eexists. split; [reflexivity|apply repeat_length].
Qed.

Lemma consume_body_trace (verbosity : string) :
  exists body : token -> vars -> Run vars,
    (forall s vs, consume verbosity s vs = for_tokens s body vs) /\
    (forall t vs, trace (body t vs) = per_token verbosity t).
Proof.
  unfold consume, per_token.
  destruct (String.eqb verbosity "t"); [|destruct (String.eqb verbosity "q")];
    cbn [orb]; eexists; (split; [reflexivity|]); intros t vs.
  - apply incr_type_table_silent.
  - reflexivity.
  - unfold print_and_histogram, print. rewrite bind_emit.
    unfold trace at 1; cbn [fst]. now rewrite incr_type_table_silent.
Qed.

Lemma report_events_silent (elapsed : string) (tr : list event) :
  Forall (fun ev => ev = Clock \/ is_report elapsed ev) tr ->
  yielded tr = [] /\ printed_tokens tr = [].
Proof.
  induction 1 as [|ev tr Hev _ [IHy IHp]]; [now split|].
  destruct Hev as [-> | [-> | [-> | [(n & name & ->) | (n & ->)]]]];
    simpl; now split.
Qed.

(** ** The further properties *)

Section Further.

Variable start_matching : string -> result token_stream.
Variable _token_type_as_string : Z -> string.
Variable elapsed : string.

Local Abbreviation summary := (summary _token_type_as_string).
Local Abbreviation run_with := (run_with start_matching _token_type_as_string elapsed).
Local Abbreviation main := (main start_matching _token_type_as_string elapsed).

Lemma run_with_unopened (verbosity cif : string) (e : exn) :
  start_matching cif = Raise e ->
  run_with verbosity cif = ([NewTokeniser; StartMatching cif], Raise e).
Proof.
  intros Hs. unfold run_with. now rewrite !bind_emit, Hs, bind_failed.
Qed.

Lemma summary_returns (vs : vars) :
  exists trs vs',
    summary vs = (trs, Ok vs') /\
    Forall (fun ev => ev = Clock \/ is_report elapsed ev) trs.
Proof.
  destruct vs as [[tbl|] n].
  - eexists _, _. split; [apply summary_table|].
    constructor; [right; right; now left|].
    unfold count_lines. apply Forall_map, Forall_forall. intros i _.
    right. right. right. left. eauto.
  - eexists _, _. split; [apply summary_quiet|constructor].
Qed.

(** The effects of a run whose source opens: the start-up, the loop,
    and after it only readings of the clock and lines of the report. *)
Lemma run_with_trace (verbosity cif : string) (s : token_stream) :
  start_matching cif = Ok s ->
  exists tail,
    trace (run_with verbosity cif) =
      startup cif ++ trace (consume verbosity s (initial_vars verbosity)) ++ tail /\
    Forall (fun ev => ev = Clock \/ is_report elapsed ev) tail /\
    (forall vs, outcome (run_with verbosity cif) = Ok vs ->
       exists vs', outcome (consume verbosity s (initial_vars verbosity)) = Ok vs').
Proof.
  intros Hs.
  destruct (consume verbosity s (initial_vars verbosity)) as [tr [vs|e]] eqn:Hc.
  - destruct (summary_returns vs) as (trs & vs' & Hsum & Htrs).
    rewrite (run_with_ended _ _ _ verbosity cif s tr trs vs vs' Hs Hc Hsum).
    eexists. split; [reflexivity|]. split; [|eauto].
    apply Forall_app_2;
      [constructor; [now left|constructor; [right; now left|constructor]]|].
    apply Forall_app_2; [exact Htrs|].
    constructor; [|constructor]. right. right. right. right. eauto.
  - rewrite (run_with_raised _ _ _ verbosity cif s tr e Hs Hc).
    exists []. split; [now rewrite app_nil_r|]. split; [constructor|].
    intros vs H. discriminate H.
Qed.

Lemma run_with_stops_outside (verbosity cif : string) (s : token_stream)
    (pre post : list token) (bad : token) :
  verbosity <> "q" ->
  start_matching cif = Ok s ->
  tokens s = pre ++ bad :: post ->
  Forall indexable pre ->
  ~ indexable bad ->
  run_with verbosity cif =
    (startup cif ++
     flat_map (fun t => Next (Yield t) :: per_token verbosity t) pre ++
     Next (Yield bad) :: per_token verbosity bad,
     Raise IndexError).
Proof.
  intros Hq Hs Htoks Hpre Hbad.
  exact (run_with_raised _ _ _ verbosity cif s _ _ Hs
           (consume_stops_outside verbosity s pre post bad Hq Htoks Hpre Hbad)).
Qed.

Lemma run_with_wrapped (verbosity cif : string) (s : token_stream) :
  verbosity <> "q" ->
  start_matching cif = Ok s ->
  failure s = None ->
  Forall indexable (tokens s) ->
  run_with verbosity cif =
    (startup cif ++
     (flat_map (fun t => Next (Yield t) :: per_token verbosity t) (tokens s) ++
      [Next Stop]) ++
     [Clock; done_line elapsed] ++
     (summary_header ::
      map (fun i => count_line (count_slot i (tokens s)) (_token_type_as_string i))
          (py_range 1 18)) ++
     [total_line (Z.of_nat (length (tokens s)) - count_slot 0 (tokens s))],
     Ok {| type_table := Some (tally (map wrapped (tokens s)) (repeat 0 18%nat));
           ntokens := Z.of_nat (length (tokens s)) - count_slot 0 (tokens s) |}).
Proof.
  intros Hq Hs Hf Hall.
  pose proof (consume_wrapped verbosity s Hq Hall) as Hc. rewrite Hf in Hc.
  pose proof (wrapped_all_category _ Hall) as Hcat.
  rewrite (run_with_ended _ _ _ verbosity cif s _ _ _ _ Hs Hc (summary_table _ _ _)).
  cbn [ntokens]. rewrite tally_wrapped_length. change (Z.of_nat 18) with 18.
  rewrite count_lines_tally, counted_total by assumption.
  unfold histogram_lines. rewrite length_map, count_slot_wrapped.
  rewrite (map_ext (fun i => count_line (count_type i (map wrapped (tokens s)))
                               (_token_type_as_string i))
                   (fun i => count_line (count_slot i (tokens s))
                               (_token_type_as_string i)))
    by (intros i; now rewrite count_slot_wrapped).
  reflexivity.
Qed.

(** X1.  When [start_matching] raises on the resolved path, the script
    has echoed its arguments, constructed the tokeniser and called
    [start_matching], and nothing else: the clock is not read,
    [Starting....] is not printed, no token is pulled, nothing is
    reported, and the exception is the one [start_matching] raised. *)
Theorem unopened_source_is_fatal (argv : list string) (verbosity cif : string)
    (e : exn) :
  parse_args argv = ret (verbosity, cif) ->
  start_matching cif = Raise e ->
  main argv = ([Printed [PList argv]; NewTokeniser; StartMatching cif], Raise e).
Proof.
  intros Hp Hs.
  rewrite (main_parsed _ _ _ _ _ _ Hp), (run_with_unopened verbosity cif e Hs).
  reflexivity.
Qed.

(** X2.  Lines 15-20 raise exactly on the argument lists that have no
    first argument, an empty first argument, the first argument [-]
    alone, or a first argument [-c...] with nothing after it; the
    exception is an [IndexError], and the script has then only echoed
    its arguments.  On every other argument list they give a verbosity
    and a path. *)
Theorem arguments_fail_exactly_without_path (argv : list string) :
  (parse_args argv = raise IndexError <-> lacks_path argv) /\
  (lacks_path argv -> main argv = ([Printed [PList argv]], Raise IndexError)) /\
  (~ lacks_path argv -> exists verbosity cif, parse_args argv = ret (verbosity, cif)).
Proof.
  destruct (parse_args_outcomes argv) as [[Hl Hp] | [Hl (v & cif & Hp)]].
  - split; [now split|]. split; [|contradiction].
    intros _. now apply main_unparsed.
  - split; [|split; [contradiction|eauto]].
    split; [|contradiction]. rewrite Hp. discriminate.
Qed.

(** X3.  In a run that is not quiet, the first token whose type is not
    between -18 and 17 stops the run with an [IndexError], whatever
    follows it in the stream: the tokens before it and the token itself
    have been pulled (and, unless the verbosity is [t], printed, the
    offending token included), no later token is pulled, and neither
    the timing line nor any line of the summary is printed. *)
Theorem type_outside_table_stops_run (argv : list string) (verbosity cif : string)
    (s : token_stream) (pre post : list token) (bad : token) :
  parse_args argv = ret (verbosity, cif) ->
  verbosity <> "q" ->
  start_matching cif = Ok s ->
  tokens s = pre ++ bad :: post ->
  Forall indexable pre ->
  ~ indexable bad ->
  main argv =
    (Printed [PList argv] :: startup cif ++
     flat_map (fun t => Next (Yield t) :: per_token verbosity t) pre ++
     Next (Yield bad) :: per_token verbosity bad,
     Raise IndexError) /\
  yielded (trace (main argv)) = pre ++ [bad] /\
  printed_tokens (trace (main argv)) =
    (if String.eqb verbosity "t" then [] else pre ++ [bad]).
Proof.
  intros Hp Hq Hs Htoks Hpre Hbad.
  rewrite (main_parsed _ _ _ _ _ _ Hp).
  rewrite (run_with_stops_outside verbosity cif s pre post bad Hq Hs Htoks Hpre Hbad).
  unfold trace, outcome; cbn [fst snd]. split; [reflexivity|].
  cbn [yielded printed_tokens startup app].
  rewrite yielded_app, printed_tokens_app, yielded_per_token, printed_per_token.
  unfold per_token.
  destruct (String.eqb_spec verbosity "q") as [E|_]; [contradiction|].
  rewrite orb_false_r. now destruct (String.eqb verbosity "t").
Qed.

(** X4.  Over a stream that ends normally, a run completes exactly when
    it is quiet or every token type is between -18 and 17. *)
Theorem run_completes_iff_indexable (argv : list string) (verbosity cif : string)
    (s : token_stream) :
  parse_args argv = ret (verbosity, cif) ->
  start_matching cif = Ok s ->
  failure s = None ->
  (exists vs, outcome (main argv) = Ok vs) <->
  (verbosity = "q" \/ Forall indexable (tokens s)).
Proof.
  intros Hp Hs Hf. rewrite (main_parsed _ _ _ _ _ _ Hp).
  unfold outcome at 1; cbn [snd].
  destruct (String.eqb_spec verbosity "q") as [->|Hq].
  - split; [now left|]. intros _.
    rewrite (run_with_completed _ _ _ "q" cif s Hs Hf (or_introl eq_refl)).
    eexists. reflexivity.
  - split.
    + intros [vs Hvs]. right.
      destruct (first_not_indexable (tokens s))
        as [H | (pre & bad & post & Htoks & Hpre & Hbad)]; [exact H|].
      rewrite (run_with_stops_outside verbosity cif s pre post bad
                 Hq Hs Htoks Hpre Hbad) in Hvs.
      discriminate Hvs.
    + intros [H|H]; [contradiction|].
      rewrite (run_with_wrapped verbosity cif s Hq Hs Hf H).
      eexists. reflexivity.
Qed.

(** X5.  Over a stream that ends normally with token types between -18
    and 17, a run that is not quiet completes, and a negative type counts
    from the end of the table: the line of type [i], for [i] from 1 to
    17, carries the number of tokens of type [i] or [i - 18], and the
    total leaves out the tokens of type 0 and of type -18. *)
Theorem negative_types_count_from_the_end (argv : list string)
    (verbosity cif : string) (s : token_stream) :
  parse_args argv = ret (verbosity, cif) ->
  verbosity <> "q" ->
  start_matching cif = Ok s ->
  failure s = None ->
  Forall indexable (tokens s) ->
  let total := Z.of_nat (length (tokens s)) - count_slot 0 (tokens s) in
  (exists tbl,
     outcome (main argv) = Ok {| type_table := Some tbl; ntokens := total |} /\
     forall i, 0 <= i < 18 -> entry tbl i = count_slot i (tokens s)) /\
  trace (main argv) =
    Printed [PList argv] :: startup cif ++
    (flat_map (fun t => Next (Yield t) :: per_token verbosity t) (tokens s) ++
     [Next Stop]) ++
    [Clock; done_line elapsed] ++
    (summary_header ::
     map (fun i => count_line (count_slot i (tokens s)) (_token_type_as_string i))
         [1; 2; 3; 4; 5; 6; 7; 8; 9; 10; 11; 12; 13; 14; 15; 16; 17]) ++
    [total_line total] /\
  (forall i, 0 <= i < 18 ->
     count_slot i (tokens s) =
       count_type i (tokens s) + count_type (i - 18) (tokens s)).
Proof.
  intros Hp Hq Hs Hf Hall total.
  rewrite (main_parsed _ _ _ _ _ _ Hp).
  rewrite (run_with_wrapped verbosity cif s Hq Hs Hf Hall).
  unfold trace, outcome; cbn [fst snd].
  split; [|split; [reflexivity|]].
  - eexists. split; [reflexivity|]. intros i Hi.
    rewrite tally_entry by (try apply wrapped_all_category; assumption).
    apply count_slot_wrapped.
  - intros i Hi. clear Hp Hs Hf total.
    induction Hall as [|t toks Ht _ IH]; [reflexivity|].
    cbn [count_slot count_type]. rewrite IH.
    unfold indexable in Ht. unfold table_slot.
    destruct (Z.ltb_spec (type t) 0);
      destruct (Z.eqb_spec (type t + 18) i); destruct (Z.eqb_spec (type t) i);
      destruct (Z.eqb_spec (type t) (i - 18)); lia.
Qed.

(** X6.  Whatever the arguments, the tokeniser and the types of the
    tokens, an exception that ends the script is an [IndexError], the
    error of a failing pull, or the exception that [start_matching]
    raised.  In particular the script raises no [TypeError] of its own:
    the table that is absent in the quiet run is never indexed. *)
Theorem script_raises_only_index_or_tokeniser_errors (argv : list string) (e : exn) :
  outcome (main argv) = Raise e ->
  e = IndexError \/
  (exists reason, e = TokeniserError reason) \/
  (exists cif, start_matching cif = Raise e).
Proof.
  intros He.
  destruct (parse_args_outcomes argv) as [[_ Hp] | [_ (v & cif & Hp)]].
  - rewrite (main_unparsed _ _ _ _ _ Hp) in He. left.
    unfold outcome in He; cbn [snd] in He. congruence.
  - rewrite (main_parsed _ _ _ _ _ _ Hp) in He.
    unfold outcome at 1 in He; cbn [snd] in He.
    destruct (start_matching cif) as [s|e0] eqn:Hs.
    + pose proof (consume_outcome v s) as Hout.
      destruct (consume v s (initial_vars v)) as [tr [vs|e']] eqn:Hc.
      * destruct (summary_returns vs) as (trs & vs' & Hsum & _).
        rewrite (run_with_ended _ _ _ v cif s tr trs vs vs' Hs Hc Hsum) in He.
        discriminate He.
      * rewrite (run_with_raised _ _ _ v cif s tr e' Hs Hc) in He.
        unfold outcome in He, Hout; cbn [snd] in He, Hout.
        assert (e' = e) as <- by congruence.
        destruct Hout as [H|H]; [now left|right; now left].
    + rewrite (run_with_unopened v cif e0 Hs) in He.
      unfold outcome in He; cbn [snd] in He.
      assert (e0 = e) as <- by congruence.
      right. right. eauto.
Qed.

(** X7.  In every run that completes and is not quiet -- whatever the
    tokens were -- the table has eighteen entries, the summary prints
    seventeen lines, for the types 1 to 17 in this order, each with its
    entry of the table, and the total printed on the last line is the sum
    of the seventeen counts printed above it. *)
Theorem total_is_sum_of_printed_counts (argv : list string) (verbosity cif : string)
    (vs : vars) :
  parse_args argv = ret (verbosity, cif) ->
  verbosity <> "q" ->
  outcome (main argv) = Ok vs ->
  exists tbl loop_tr,
    type_table vs = Some tbl /\
    length tbl = 18%nat /\
    Forall is_loop_event loop_tr /\
    trace (main argv) =
      Printed [PList argv] :: startup cif ++ loop_tr ++
      [Clock; done_line elapsed] ++
      (summary_header ::
       map (fun i => count_line (entry tbl i) (_token_type_as_string i))
           [1; 2; 3; 4; 5; 6; 7; 8; 9; 10; 11; 12; 13; 14; 15; 16; 17]) ++
      [total_line (ntokens vs)] /\
    ntokens vs =
      zsum (map (entry tbl) [1; 2; 3; 4; 5; 6; 7; 8; 9; 10; 11; 12; 13; 14; 15; 16; 17]).
Proof.
  intros Hp Hq He. rewrite (main_parsed _ _ _ _ _ _ Hp) in *.
  unfold outcome at 1 in He; cbn [snd] in He. unfold trace at 1; cbn [fst].
  destruct (start_matching cif) as [s|e0] eqn:Hs;
    [|rewrite (run_with_unopened verbosity cif e0 Hs) in He; discriminate He].
  pose proof (consume_outcome verbosity s) as Hout.
  pose proof (consume_events verbosity s (initial_vars verbosity)) as Hev.
  destruct (consume verbosity s (initial_vars verbosity)) as [tr [vs0|e']] eqn:Hc;
    [|rewrite (run_with_raised _ _ _ verbosity cif s tr e' Hs Hc) in He;
      discriminate He].
  unfold outcome in Hout; cbn [snd] in Hout. unfold trace in Hev; cbn [fst] in Hev.
  destruct Hout as [[E _] | [_ (tbl & -> & Hlen)]]; [contradiction|].
  rewrite (run_with_ended _ _ _ verbosity cif s tr _ _ _ Hs Hc (summary_table _ _ _)) in *.
  unfold outcome in He; cbn [snd] in He. injection He as <-.
  unfold trace; cbn [fst type_table ntokens].
  exists tbl, tr. unfold count_lines. rewrite Hlen. change (Z.of_nat 18) with 18.
  repeat split; assumption || reflexivity.
Qed.

(** X8.  The tokens of the stream are pulled in order and each at most
    once: in every run whose source opens, the tokens pulled are an
    initial part of the stream, and the whole of it when the run
    completes.  Without a selector [q] or [t] the tokens printed are
    exactly the tokens pulled, in order, the token on which the run stops
    included; with [q] or [t] no token is printed. *)
Theorem tokens_pulled_once_in_order (argv : list string) (verbosity cif : string)
    (s : token_stream) :
  parse_args argv = ret (verbosity, cif) ->
  start_matching cif = Ok s ->
  exists k,
    yielded (trace (main argv)) = take k (tokens s) /\
    printed_tokens (trace (main argv)) =
      (if String.eqb verbosity "t" || String.eqb verbosity "q"
       then [] else take k (tokens s)) /\
    (forall vs, outcome (main argv) = Ok vs -> take k (tokens s) = tokens s).
Proof.
  intros Hp Hs. rewrite (main_parsed _ _ _ _ _ _ Hp).
  destruct (run_with_trace verbosity cif s Hs) as (tail & Htr & Htail & Hok).
  destruct (report_events_silent elapsed tail Htail) as [Hy Hpr].
  destruct (consume_body_trace verbosity) as (body & Hbody & Hbtr).
  rewrite Hbody in Htr. unfold for_tokens in Htr.
  destruct (for_tokens_from_single_pass (per_token verbosity) body (tokens s)
              (failure s) (initial_vars verbosity) Hbtr)
    as (k & fin & Hloop & Hfin & Hall).
  rewrite Hloop in Htr. exists k.
  unfold trace, outcome in *; cbn [fst snd] in *. rewrite Htr.
  assert (yielded fin = [] /\ printed_tokens fin = []) as [Hyf Hpf]
    by (destruct Hfin as [->| ->]; [now split|destruct (failure s); now split]).
  cbn [yielded printed_tokens startup app].
  rewrite !yielded_app, !printed_tokens_app.
  rewrite yielded_per_token, printed_per_token, Hy, Hpr, Hyf, Hpf, !app_nil_r.
  repeat split.
  intros vs Hvs. destruct (Hok vs Hvs) as [vs' Hvs'].
  rewrite Hbody in Hvs'. exact (Hall vs' Hvs').
Qed.

End Further.

(** ** The further properties on sample invocations *)

Lemma unopened_source_is_fatal_witness :
  let argv := ["star_example.py"; "missing.cif"] in
  parse_args argv = ret ("a", "missing.cif") /\
  further_start_matching "missing.cif" = Raise (TokeniserError "cannot open") /\
  further_main argv =
    ([Printed [PList argv]; NewTokeniser; StartMatching "missing.cif"],
     Raise (TokeniserError "cannot open")).
Proof.
  intros argv. split; [reflexivity|]. split; [reflexivity|].
  exact (unopened_source_is_fatal further_start_matching sample_names "0.01"
           argv "a" "missing.cif" (TokeniserError "cannot open") eq_refl eq_refl).
Defined.

Lemma type_outside_table_stops_run_witness :
  let argv := ["star_example.py"; "beyond.cif"] in
  let pre := [Token 10 "_a" (0, 2)] in
  let bad := Token 18 "?" (3, 4) in
  let post := [Token 16 "1" (5, 6)] in
  parse_args argv = ret ("a", "beyond.cif") /\
  "a" <> "q" /\
  further_start_matching "beyond.cif" = Ok with_type_18 /\
  tokens with_type_18 = pre ++ bad :: post /\
  Forall indexable pre /\
  ~ indexable bad /\
  yielded (trace (further_main argv)) = pre ++ [bad] /\
  printed_tokens (trace (further_main argv)) = pre ++ [bad].
Proof.
  intros argv pre bad post.
  assert ("a" <> "q") as Hq by discriminate.
  assert (Forall indexable pre) as Hpre
    by (repeat (constructor; [unfold indexable; simpl; lia|]); constructor).
  assert (~ indexable bad) as Hbad by (unfold indexable; simpl; lia).
  split; [reflexivity|]. split; [exact Hq|]. split; [reflexivity|].
  split; [reflexivity|]. split; [exact Hpre|]. split; [exact Hbad|].
  exact (proj2
    (type_outside_table_stops_run further_start_matching sample_names "0.01"
       argv "a" "beyond.cif" with_type_18 pre post bad
       eq_refl Hq eq_refl eq_refl Hpre Hbad)).
Defined.

Lemma run_completes_iff_indexable_witness :
  let argv := ["star_example.py"; "-t"; "negative.cif"] in
  parse_args argv = ret ("t", "negative.cif") /\
  further_start_matching "negative.cif" = Ok with_negative_types /\
  failure with_negative_types = None /\
  ((exists vs, outcome (further_main argv) = Ok vs) <->
   ("t" = "q" \/ Forall indexable (tokens with_negative_types))).
Proof.
  intros argv. split; [reflexivity|]. split; [reflexivity|]. split; [reflexivity|].
  exact (run_completes_iff_indexable further_start_matching sample_names "0.01"
           argv "t" "negative.cif" with_negative_types eq_refl eq_refl eq_refl).
Defined.

Lemma with_negative_types_indexable : Forall indexable (tokens with_negative_types).
Proof. repeat (constructor; [unfold indexable; simpl; lia|]). constructor. Defined.

Lemma negative_types_count_from_the_end_witness :
  let argv := ["star_example.py"; "-t"; "negative.cif"] in
  parse_args argv = ret ("t", "negative.cif") /\
  "t" <> "q" /\
  further_start_matching "negative.cif" = Ok with_negative_types /\
  failure with_negative_types = None /\
  Forall indexable (tokens with_negative_types) /\
  exists tbl,
    outcome (further_main argv) = Ok {| type_table := Some tbl; ntokens := 2 |} /\
    forall i, 0 <= i < 18 -> entry tbl i = count_slot i (tokens with_negative_types).
Proof.
  intros argv.
  assert ("t" <> "q") as Hq by discriminate.
  split; [reflexivity|]. split; [exact Hq|]. split; [reflexivity|].
  split; [reflexivity|]. split; [exact with_negative_types_indexable|].
  exact (proj1
    (negative_types_count_from_the_end further_start_matching sample_names "0.01"
       argv "t" "negative.cif" with_negative_types
       eq_refl Hq eq_refl eq_refl with_negative_types_indexable)).
Defined.

Lemma script_raises_only_index_or_tokeniser_errors_witness :
  let argv := ["star_example.py"; "-t"; "beyond.cif"] in
  outcome (further_main argv) = Raise IndexError /\
  (IndexError = IndexError \/
   (exists reason, IndexError = TokeniserError reason) \/
   (exists cif, further_start_matching cif = Raise IndexError)).
Proof.
  intros argv. split; [reflexivity|].
  exact (script_raises_only_index_or_tokeniser_errors further_start_matching
           sample_names "0.01" argv IndexError eq_refl).
Defined.

Lemma total_is_sum_of_printed_counts_witness :
  let argv := ["star_example.py"; "-t"; "negative.cif"] in
  let vs := {| type_table := Some (1 :: repeat 0 16%nat ++ [2]); ntokens := 2 |} in
  parse_args argv = ret ("t", "negative.cif") /\
  "t" <> "q" /\
  outcome (further_main argv) = Ok vs /\
  exists tbl loop_tr,
    type_table vs = Some tbl /\
    length tbl = 18%nat /\
    Forall is_loop_event loop_tr /\
    trace (further_main argv) =
      Printed [PList argv] :: startup "negative.cif" ++ loop_tr ++
      [Clock; done_line "0.01"] ++
      (summary_header ::
       map (fun i => count_line (entry tbl i) (sample_names i))
           [1; 2; 3; 4; 5; 6; 7; 8; 9; 10; 11; 12; 13; 14; 15; 16; 17]) ++
      [total_line (ntokens vs)] /\
    ntokens vs =
      zsum (map (entry tbl) [1; 2; 3; 4; 5; 6; 7; 8; 9; 10; 11; 12; 13; 14; 15; 16; 17]).
Proof.
  intros argv vs.
  assert ("t" <> "q") as Hq by discriminate.
  split; [reflexivity|]. split; [exact Hq|]. split; [reflexivity|].
  exact (total_is_sum_of_printed_counts further_start_matching sample_names "0.01"
           argv "t" "negative.cif" vs eq_refl Hq eq_refl).
Defined.

Lemma tokens_pulled_once_in_order_witness :
  let argv := ["star_example.py"; "beyond.cif"] in
  parse_args argv = ret ("a", "beyond.cif") /\
  further_start_matching "beyond.cif" = Ok with_type_18 /\
  exists k,
    yielded (trace (further_main argv)) = take k (tokens with_type_18) /\
    printed_tokens (trace (further_main argv)) = take k (tokens with_type_18) /\
    (forall vs, outcome (further_main argv) = Ok vs ->
       take k (tokens with_type_18) = tokens with_type_18).
Proof.
  intros argv. split; [reflexivity|]. split; [reflexivity|].
  exact (tokens_pulled_once_in_order further_start_matching sample_names "0.01"
           argv "a" "beyond.cif" with_type_18 eq_refl eq_refl).
Defined.
